(** * dehydrate-calls: capture and re-execution of whitelisted calls

    A shallow embedding of [src/index.js] ([createCallCapturer],
    [executeDehydrated], [hydrate]) together with the part of the JavaScript
    host the three functions rely on, and the properties of the protocol
    proved on it. *)

From Stdlib Require Import List String Ascii ZArith Bool Lia DecimalString.
Import ListNotations.
Local Open Scope string_scope.
Local Open Scope list_scope.
Local Open Scope bool_scope.

#[local] Set Warnings "-register-all".

Declare Scope js_scope.
Delimit Scope js_scope with js.

(** ** JavaScript values *)

(** The prototype an object delegates to when a property is not its own. *)
Inductive proto : Type :=
| NullProto                 (* Object.create(null) *)
| ObjectProto               (* object literals and JSON.parse results *)
| ArrayProto
| FunctionProto
| StringProto
| NumberProto
| BooleanProto
| ClassProto (cls : nat).   (* instances made by the class with that reference *)

(** Values are trees. Numbers are restricted to integers; a string is its
    sequence of characters. The field list of an object is its own enumerable
    string-keyed properties in property order (what [Object.keys] reports). A
    function is known by its reference [ref] (its identity) and its own
    properties; what it does when called belongs to the host. *)
#[local] Unset Elimination Schemes.
Inductive value : Type :=
| VUndefined
| VNull
| VBool (b : bool)
| VNum (n : Z)
| VStr (s : string)
| VArr (elements : list value)
| VObj (p : proto) (fields : list (string * value))
| VFun (ref : nat) (fields : list (string * value)).
#[local] Set Elimination Schemes.

(** Why the language itself refused an operation. *)
Inductive refusal : Type :=
| NotIterable          (* for-of or spread over a value without an iterator *)
| NotDestructurable    (* destructuring undefined or null *)
| NotAFunction         (* calling a property that is undefined *)
| NotConstructible     (* new on a function that is not a constructor *)
| NotAnObject          (* new Proxy on a primitive *)
| ClassWithoutNew.     (* calling a class constructor without new *)

(** What can be thrown. [Error m] is [new Error(m)], the only kind of error
    index.js creates; [TypeError] is raised by the language; [Thrown] is any
    other value thrown by an invoked capability. *)
Inductive exn : Type :=
| Error (message : string)
| TypeError (why : refusal)
| Thrown (v : value).

Inductive outcome (A : Type) : Type :=
| Ok (a : A)
| Throw (e : exn).
Arguments Ok {A} a.
Arguments Throw {A} e.

(** ** The host

    Everything index.js uses but does not define: the properties objects
    inherit from the built-in prototypes, the imported predicate [isClass]
    (module @tim-code/my-util), and the meaning of calling or constructing a
    function of the capability tree, which may read and change the state of
    the embedding application ([World]) and may throw. Values do not change:
    an invoked capability leaves the payload and the capability tree being
    walked as they are. *)
Record Host : Type := {
  World : Type;
  inherited : proto -> string -> value;
  isClass : value -> bool;
  call : value -> list value -> World -> outcome value * World;
  construct : value -> list value -> World -> outcome value * World;
  fn_text : nat -> string
}.

(** ** Primitive operations of the language *)

Definition truthy (v : value) : bool :=
  match v with
  | VUndefined | VNull => false
  | VBool b => b
  | VNum n => negb (n =? 0)%Z
  | VStr s => negb (s =? "")%string
  | VArr _ | VObj _ _ | VFun _ _ => true
  end.

(** [typeof v === "function"] *)
Definition typeof_function (v : value) : bool :=
  match v with VFun _ _ => true | _ => false end.

(** [typeof v === "object"] *)
Definition typeof_object (v : value) : bool :=
  match v with VNull | VArr _ | VObj _ _ => true | _ => false end.

(** [Array.isArray(v)] *)
Definition isArray (v : value) : bool :=
  match v with VArr _ => true | _ => false end.

(** Own property lookup in a field list. *)
Fixpoint own (fields : list (string * value)) (key : string) : option value :=
  match fields with
  | [] => None
  | (k, v) :: rest => if (k =? key)%string then Some v else own rest key
  end.

(** [fields[key] = v]: overwrite in place or add at the end. *)
Fixpoint set_own (fields : list (string * value)) (key : string) (v : value)
  : list (string * value) :=
  match fields with
  | [] => [(key, v)]
  | (k, x) :: rest =>
      if (k =? key)%string then (k, v) :: rest else (k, x) :: set_own rest key v
  end.

(** [Object.keys(o)] *)
Definition keys (fields : list (string * value)) : list string :=
  map fst fields.

Definition string_of_Z (n : Z) : string :=
  NilZero.string_of_int (Z.to_int n).

Definition string_of_nat (n : nat) : string :=
  NilZero.string_of_uint (Nat.to_uint n).

(** The array index a property key denotes, when it is the canonical decimal
    form of one. *)
Definition index_of_key (key : string) : option nat :=
  match NilEmpty.uint_of_string key with
  | Some u =>
      let i := Nat.of_uint u in
      if (string_of_nat i =? key)%string then Some i else None
  | None => None
  end.

Definition chars (s : string) : list string :=
  map (fun c => String c EmptyString) (list_ascii_of_string s).

(** [Array.prototype.join] on texts already converted. *)
Fixpoint join (sep : string) (parts : list string) : string :=
  match parts with
  | [] => EmptyString
  | p :: rest =>
      match rest with
      | [] => p
      | _ :: _ => (p ++ sep ++ join sep rest)%string
      end
  end.

(** [String.prototype.startsWith] *)
Fixpoint startsWith (s sub : string) : bool :=
  match sub with
  | EmptyString => true
  | String b sub' =>
      match s with
      | EmptyString => false
      | String a s' => Ascii.eqb a b && startsWith s' sub'
      end
  end.

(** [String.prototype.includes] *)
Fixpoint includes (s sub : string) : bool :=
  startsWith s sub ||
  match s with
  | EmptyString => false
  | String _ rest => includes rest sub
  end.

(** What iterating a value with for-of or spreading it yields; [None] when
    the value has no iterator. *)
Definition iterate (v : value) : option (list value) :=
  match v with
  | VArr l => Some l
  | VStr s => Some (map VStr (chars s))
  | _ => None
  end.

Section Core.

Variable host : Host.

(** ToString, as applied to property keys and to the elements [join]
    concatenates. Objects print as the default [Object.prototype.toString]
    does. *)
Fixpoint to_string (v : value) : string :=
  match v with
  | VUndefined => "undefined"
  | VNull => "null"
  | VBool true => "true"
  | VBool false => "false"
  | VNum n => string_of_Z n
  | VStr s => s
  | VArr l =>
      join ","
        (map (fun x => match x with
                       | VUndefined | VNull => EmptyString
                       | _ => to_string x
                       end) l)
  | VObj _ _ => "[object Object]"
  | VFun ref _ => fn_text host ref
  end.

(** The text [join] uses for one element: empty for undefined and null. *)
Definition element_text (v : value) : string :=
  match v with
  | VUndefined | VNull => EmptyString
  | _ => to_string v
  end.

(** [_path.join(".")] for an array [_path]. *)
Definition dotted (path_keys : list value) : string :=
  join "." (map element_text path_keys).

(** Property found through the prototype [p]. *)
Definition via (p : proto) (key : string) : value :=
  match p with
  | NullProto => VUndefined
  | _ => inherited host p key
  end.

(** [v?.[key]]: undefined on undefined and null, otherwise ordinary property
    access, own properties first and then the prototype chain. *)
Definition member (v : value) (key : string) : value :=
  match v with
  | VUndefined | VNull => VUndefined
  | VBool _ => via BooleanProto key
  | VNum _ => via NumberProto key
  | VStr s =>
      if (key =? "length")%string then VNum (Z.of_nat (String.length s))
      else match index_of_key key with
           | Some i =>
               match nth_error (chars s) i with
               | Some c => VStr c
               | None => via StringProto key
               end
           | None => via StringProto key
           end
  | VArr l =>
      if (key =? "length")%string then VNum (Z.of_nat (List.length l))
      else match index_of_key key with
           | Some i =>
               match nth_error l i with
               | Some x => x
               | None => via ArrayProto key
               end
           | None => via ArrayProto key
           end
  | VObj p fields =>
      match own fields key with
      | Some x => x
      | None => via p key
      end
  | VFun _ fields =>
      match own fields key with
      | Some x => x
      | None => via FunctionProto key
      end
  end.

(** The loop [for (const key of _path) pathContext = pathContext?.[key]]. *)
Definition walk (context : value) (path_keys : list value) : value :=
  fold_left (fun pathContext key => member pathContext (to_string key))
            path_keys context.

(** ** Computations: state of the host and exceptions *)

Definition M (A : Type) : Type := World host -> outcome A * World host.

Definition ret {A : Type} (a : A) : M A := fun w => (Ok a, w).

Definition throw {A : Type} (e : exn) : M A := fun w => (Throw e, w).

Definition bind {A B : Type} (m : M A) (k : A -> M B) : M B :=
  fun w =>
    match m w with
    | (Ok a, w') => k a w'
    | (Throw e, w') => (Throw e, w')
    end.

Notation "x <- m ;; k" := (bind m (fun x => k))
  (at level 61, m at next level, right associativity) : js_scope.
Local Open Scope js_scope.

(** [f(...args)] and [new f(...args)]: the spread comes first. *)
Definition call_spread (f args : value) : M value :=
  match iterate args with
  | Some l => call host f l
  | None => throw (TypeError NotIterable)
  end.

Definition construct_spread (f args : value) : M value :=
  match iterate args with
  | Some l => construct host f l
  | None => throw (TypeError NotIterable)
  end.

(** [throw new Error(`${text}${_path.join(".")}`)]: a string can be iterated
    by the loop above but has no [join]. *)
Definition throw_at (text : string) (_path : value) : M value :=
  match _path with
  | VArr path_keys => throw (Error (text ++ dotted path_keys)%string)
  | _ => throw (TypeError NotAFunction)
  end.

(** ** index.js, lines 66-86: the body of [executeDehydrated]

    [hydrated_args] stands for the call [hydrate(_args, context)] of line 74;
    [executeDehydrated] below passes exactly that. *)
Definition resolve (context _path _args _class : value)
                   (hydrated_args : M value) : M value :=
  match iterate _path with
  | None => throw (TypeError NotIterable)
  | Some path_keys =>
      let pathContext := walk context path_keys in
      if typeof_function pathContext then
        if truthy _args then
          args <- hydrated_args ;;
          if truthy _class then
            if isClass host pathContext then construct_spread pathContext args
            else throw_at "context does not have a class at path: " _path
          else call_spread pathContext args
        else ret pathContext
      else throw_at "context does not have a function at path: " _path
  end.

(** [json[key]] for a payload object. The three names index.js reads off a
    payload object ([_path], [_args], [_class]) are read as own properties:
    no prototype a payload object has defines them. *)
Definition field (fields : list (string * value)) (key : string) : value :=
  match own fields key with
  | Some v => v
  | None => VUndefined
  end.

(** ** index.js, lines 96-117: [hydrate]

    The local function [hydrate_field fs key] is [hydrate(json[key], context)]
    with the property lookup and the recursive call fused, which keeps the
    recursion structural (lemma [hydrate_object] below). *)
Fixpoint hydrate (json context : value) {struct json} : M value :=
  match json with
  | VArr elements =>
      (fix each (rest results : list value) {struct rest} : M value :=
         match rest with
         | [] => ret (VArr results)
         | element :: rest' =>
             r <- hydrate element context ;;
             each rest' (results ++ [r])
         end) elements []
  | VObj _ fields =>
      let hydrate_field :=
        fix hydrate_field (fs : list (string * value)) (key : string)
            {struct fs} : M value :=
          match fs with
          | [] => ret VUndefined
          | (k, v) :: fs' =>
              if (k =? key)%string then hydrate v context
              else hydrate_field fs' key
          end in
      if truthy (field fields "_path") then
        resolve context (field fields "_path") (field fields "_args")
                (field fields "_class") (hydrate_field fields "_args")
      else
        (fix each (rest : list string) (result : list (string * value))
             {struct rest} : M value :=
           match rest with
           | [] => ret (VObj NullProto result)
           | key :: rest' =>
               r <- hydrate_field fields key ;;
               each rest' (set_own result key r)
           end) (keys fields) []
  | _ => ret json
  end.

(** [d[key]] for the record [executeDehydrated] destructures. *)
Definition prop (d : value) (key : string) : value :=
  match d with
  | VObj _ fields | VFun _ fields => field fields key
  | _ => VUndefined
  end.

(** ** index.js, lines 66-86: [executeDehydrated] *)
Definition executeDehydrated (context d : value) : M value :=
  match d with
  | VUndefined | VNull => throw (TypeError NotDestructurable)
  | _ =>
      resolve context (prop d "_path") (prop d "_args") (prop d "_class")
              (hydrate (prop d "_args") context)
  end.

(** The two loops of [hydrate], written with [hydrate] itself. *)
Fixpoint hydrate_elements (context : value) (rest results : list value)
  : M value :=
  match rest with
  | [] => ret (VArr results)
  | element :: rest' =>
      r <- hydrate element context ;;
      hydrate_elements context rest' (results ++ [r])
  end.

Fixpoint hydrate_keys (context : value) (fields : list (string * value))
                      (rest : list string) (result : list (string * value))
  : M value :=
  match rest with
  | [] => ret (VObj NullProto result)
  | key :: rest' =>
      r <- hydrate (field fields key) context ;;
      hydrate_keys context fields rest' (set_own result key r)
  end.

(** ** index.js, lines 15-51: [createCallCapturer]

    What navigating a capturing proxy gives back: the function [capturer] of
    lines 25 or 32, which remembers whether line 21 found a class, or another
    proxy. Both carry the path that led to them. *)
Inductive captured : Type :=
| Capture (class : bool) (path : list string)
| Namespace (target : value) (path : list string).

(** [new Proxy(context, ...)] needs an object. *)
Definition createCallCapturer (context : value) (path : list string)
  : outcome captured :=
  if typeof_function context || (truthy context && typeof_object context)
  then Ok (Namespace context path)
  else Throw (TypeError NotAnObject).

(** The [get] trap, lines 17-49. *)
Definition get (target : value) (path : list string) (key : string)
  : outcome captured :=
  let value := member target key in
  if typeof_function value then
    Ok (Capture (isClass host value) (path ++ [key]))
  else if truthy value && typeof_object value then
    createCallCapturer value (path ++ [key])
  else
    Throw (Error ("context does not have function for path: "
                  ++ join "." (path ++ [key]))%string).

End Core.

(** Calling the function [capturer]; [new_target] tells whether it was
    called with [new]. An arrow function (line 32) is not constructible. *)
Definition capturer (class : bool) (path : list string) (new_target : bool)
                    (_args : list value) : outcome value :=
  if class then
    if negb new_target then
      Throw (Error "captured class instantiations should also use 'new'")
    else
      Ok (VObj ObjectProto [("_path", VArr (map VStr path));
                            ("_class", VBool true);
                            ("_args", VArr _args)])
  else
    if new_target then Throw (TypeError NotConstructible)
    else
      Ok (VObj ObjectProto [("_path", VArr (map VStr path));
                            ("_args", VArr _args)]).

(** [capturer.toJSON()], lines 38-40. *)
Definition toJSON (path : list string) : value :=
  VObj ObjectProto [("_path", VArr (map VStr path))].

(** ** index.js, lines 61-64: [dehydrate] *)
Definition dehydrate {A : Type} (context : value)
                     (callback : captured -> outcome A) : outcome A :=
  match createCallCapturer context [] with
  | Ok proxy =>
      let result := callback proxy in
      result
  | Throw e => Throw e
  end.

(** ** The errors of the specification, by the messages index.js gives them *)

Definition PathError (path : list string) : exn :=
  Error ("context does not have function for path: " ++ join "." path)%string.

Definition InvocationModeError : exn :=
  Error "captured class instantiations should also use 'new'".

Definition UnresolvedPathError (path_keys : list value) (host : Host) : exn :=
  Error ("context does not have a function at path: "
         ++ dotted host path_keys)%string.

Definition NotAConstructorError (path_keys : list value) (host : Host) : exn :=
  Error ("context does not have a class at path: "
         ++ dotted host path_keys)%string.

(** The text an error carries. *)
Definition message (e : exn) : string :=
  match e with
  | Error m => m
  | _ => EmptyString
  end.

(** ** Descriptors and payloads *)

(** The record [{_path: p, _args: A}] with a path of names. *)
Definition call_descriptor (p : list string) (A : list value) : value :=
  VObj ObjectProto [("_path", VArr (map VStr p)); ("_args", VArr A)].

(** The record [{_path: p, _class: true, _args: A}]. *)
Definition construct_descriptor (p : list string) (A : list value) : value :=
  VObj ObjectProto [("_path", VArr (map VStr p)); ("_class", VBool true);
                    ("_args", VArr A)].

Fixpoint unique (l : list string) : bool :=
  match l with
  | [] => true
  | k :: rest => negb (existsb (String.eqb k) rest) && unique rest
  end.

(** What [JSON.parse] can produce: no undefined, no function, plain objects
    whose keys are pairwise different. *)
Fixpoint json_shaped (v : value) : bool :=
  match v with
  | VNull | VBool _ | VNum _ | VStr _ => true
  | VArr l => forallb json_shaped l
  | VObj ObjectProto fields =>
      unique (keys fields) && forallb (fun kv => json_shaped (snd kv)) fields
  | _ => false
  end.

(** No object of the payload is taken for a Call Descriptor by line 106.
    A payload none of whose objects has a [_path] field is one. *)
Fixpoint descriptor_free (v : value) : bool :=
  match v with
  | VArr l => forallb descriptor_free l
  | VObj _ fields =>
      negb (truthy (field fields "_path"))
      && forallb (fun kv => descriptor_free (snd kv)) fields
  | _ => true
  end.

(** Same shape, same keys in the same order, same primitives; the prototype
    of an object is not compared. *)
Inductive structurally_equal : value -> value -> Prop :=
| same_undefined : structurally_equal VUndefined VUndefined
| same_null : structurally_equal VNull VNull
| same_bool b : structurally_equal (VBool b) (VBool b)
| same_num n : structurally_equal (VNum n) (VNum n)
| same_str s : structurally_equal (VStr s) (VStr s)
| same_array l l' :
    Forall2 structurally_equal l l' ->
    structurally_equal (VArr l) (VArr l')
| same_object p p' fs fs' :
    Forall2 (fun kv kv' => fst kv = fst kv'
                           /\ structurally_equal (snd kv) (snd kv')) fs fs' ->
    structurally_equal (VObj p fs) (VObj p' fs')
| same_function r fs : structurally_equal (VFun r fs) (VFun r fs).

(** ** Recording what is invoked

    The host [h] keeping, next to its own world, the list of the invocations
    made so far, oldest first. *)
Inductive invocation : Type :=
| Call (f : value) (args : list value)
| Construct (f : value) (args : list value).

Definition recording (h : Host) : Host := {|
  World := World h * list invocation;
  inherited := inherited h;
  isClass := isClass h;
  call := fun f args w =>
            let (r, w') := call h f args (fst w) in
            (r, (w', snd w ++ [Call f args]));
  construct := fun f args w =>
                 let (r, w') := construct h f args (fst w) in
                 (r, (w', snd w ++ [Construct f args]));
  fn_text := fn_text h
|}.

(** ** A small host to run the definitions on

    Two functions on the integers, a class, and the one inherited property
    the examples need, [Function.prototype.call]; every invocation is
    recorded. *)
Module Demo.

Definition sqrt_ref : nat := 1.
Definition max_ref : nat := 2.
Definition Box_ref : nat := 3.
Definition call_ref : nat := 4.

Definition sqrt : value := VFun sqrt_ref [].
Definition max : value := VFun max_ref [].
Definition Box : value := VFun Box_ref [].
Definition Function_prototype_call : value := VFun call_ref [].

Definition from_prototype (p : proto) (key : string) : value :=
  match p with
  | FunctionProto =>
      if (key =? "call")%string then Function_prototype_call else VUndefined
  | _ => VUndefined
  end.

Definition is_class (v : value) : bool :=
  match v with
  | VFun r _ => Nat.eqb r Box_ref
  | _ => false
  end.

(** The largest of the numbers [args]; [None] when one of them is not a
    number or there is none, where JavaScript leaves the integers. *)
Fixpoint largest (args : list value) : option Z :=
  match args with
  | [] => None
  | VNum n :: rest =>
      match rest with
      | [] => Some n
      | _ :: _ => option_map (Z.max n) (largest rest)
      end
  | _ :: _ => None
  end.

Definition outside : exn := Thrown (VStr "not an integer").

(** Plain calls. [sqrt] and [max] answer where the answer is an integer; a
    class called without [new] and [Function.prototype.call] called on
    nothing are refused by the language. *)
Definition invoke (f : value) (args : list value) (w : unit)
  : outcome value * unit :=
  match f with
  | VFun r _ =>
      if Nat.eqb r sqrt_ref then
        match args with
        | VNum n :: _ =>
            if (0 <=? n)%Z && (Z.sqrt n * Z.sqrt n =? n)%Z
            then (Ok (VNum (Z.sqrt n)), w) else (Throw outside, w)
        | _ => (Throw outside, w)
        end
      else if Nat.eqb r max_ref then
        match largest args with
        | Some n => (Ok (VNum n), w)
        | None => (Throw outside, w)
        end
      else if Nat.eqb r Box_ref then (Throw (TypeError ClassWithoutNew), w)
      else if Nat.eqb r call_ref then (Throw (TypeError NotAFunction), w)
      else (Ok VUndefined, w)
  | _ => (Throw (TypeError NotAFunction), w)
  end.

(** [new Box(v)] makes [{v}]; nothing else is a constructor. *)
Definition instantiate (f : value) (args : list value) (w : unit)
  : outcome value * unit :=
  match f with
  | VFun r _ =>
      if Nat.eqb r Box_ref then
        (Ok (VObj (ClassProto Box_ref) [("v", nth 0 args VUndefined)]), w)
      else (Throw (TypeError NotConstructible), w)
  | _ => (Throw (TypeError NotConstructible), w)
  end.

Definition silent : Host := {|
  World := unit;
  inherited := from_prototype;
  isClass := is_class;
  call := invoke;
  construct := instantiate;
  fn_text := fun _ => "function () { [native code] }"
|}.

Definition host : Host := recording silent.

(** Nothing invoked yet. *)
Definition start : World host := (tt, []).

(** The capability tree [{sqrt, max}] and a tree with a class. *)
Definition math : value := VObj ObjectProto [("sqrt", sqrt); ("max", max)].

Definition shapes : value :=
  VObj ObjectProto [("C", VObj ObjectProto [("Box", Box)]); ("f", sqrt)].

End Demo.

(** The arguments of a call, hydrated one after the other. *)
Fixpoint hydrate_all (host : Host) (context : value) (l : list value)
  : M host (list value) :=
  match l with
  | [] => ret host []
  | x :: rest =>
      bind host (hydrate host x context) (fun r =>
      bind host (hydrate_all host context rest) (fun rs =>
      ret host (r :: rs)))
  end.

(** The copy [hydrate] makes of a payload without descriptors. *)
Fixpoint copy (v : value) : value :=
  match v with
  | VArr l => VArr (map copy l)
  | VObj _ fields => VObj NullProto (map (fun kv => (fst kv, copy (snd kv))) fields)
  | _ => v
  end.

Definition copy_fields (fields : list (string * value))
  : list (string * value) :=
  map (fun kv => (fst kv, copy (snd kv))) fields.

(** [hydrate] returns the copy of [v] and leaves the world as it was. *)
Definition copied (host : Host) (T v : value) : Prop :=
  forall w, hydrate host v T w = (Ok (copy v), w).

(** [pathContext] after each step of the walk. *)
Fixpoint trail (host : Host) (context : value) (path_keys : list value)
  : list value :=
  match path_keys with
  | [] => []
  | key :: rest =>
      let next := member host context (to_string host key) in
      next :: trail host next rest
  end.

Definition nullish (v : value) : bool :=
  match v with VUndefined | VNull => true | _ => false end.

(** ** Navigating the capturing proxies

    [$.k1.k2 ... kn]: the [get] traps of lines 17-49 taken one after the
    other, starting at the proxy or capturer [c]. A capturer is a function
    and no proxy: once a name is asked of one, what follows is property
    access on that function and captures nothing, which [None] records. *)
Fixpoint navigate (host : Host) (c : captured) (names : list string)
  : outcome (option captured) :=
  match names with
  | [] => Ok (Some c)
  | key :: rest =>
      match c with
      | Namespace target path =>
          match get host target path key with
          | Ok c' => navigate host c' rest
          | Throw e => Throw e
          end
      | Capture _ _ => Ok None
      end
  end.

(** Objects have pairwise different keys, at every depth [hydrate] visits. *)
Fixpoint well_keyed (v : value) : bool :=
  match v with
  | VArr l => forallb well_keyed l
  | VObj _ fields =>
      unique (keys fields) && forallb (fun kv => well_keyed (snd kv)) fields
  | _ => true
  end.

(** * Properties *)

(** ** Induction on values *)

Section ValueInduction.

Variable P : value -> Prop.
Hypothesis P_undefined : P VUndefined.
Hypothesis P_null : P VNull.
Hypothesis P_bool : forall b, P (VBool b).
Hypothesis P_num : forall n, P (VNum n).
Hypothesis P_str : forall s, P (VStr s).
Hypothesis P_arr : forall l, Forall P l -> P (VArr l).
Hypothesis P_obj :
  forall p fields, Forall (fun kv => P (snd kv)) fields -> P (VObj p fields).
Hypothesis P_fun :
  forall r fields, Forall (fun kv => P (snd kv)) fields -> P (VFun r fields).

Fixpoint value_ind (v : value) : P v :=
  let fix elements (l : list value) : Forall P l :=
    match l with
    | [] => Forall_nil _
    | x :: rest => Forall_cons x (value_ind x) (elements rest)
    end in
  let fix members (l : list (string * value))
      : Forall (fun kv => P (snd kv)) l :=
    match l with
    | [] => Forall_nil _
    | kv :: rest =>
        Forall_cons (P := fun kv => P (snd kv)) kv (value_ind (snd kv))
                    (members rest)
    end in
  match v with
  | VUndefined => P_undefined
  | VNull => P_null
  | VBool b => P_bool b
  | VNum n => P_num n
  | VStr s => P_str s
  | VArr l => P_arr l (elements l)
  | VObj p fields => P_obj p fields (members fields)
  | VFun r fields => P_fun r fields (members fields)
  end.

End ValueInduction.

(** ** The equations of [hydrate] and [executeDehydrated] *)

Section Equations.

Variable host : Host.

Lemma bind_ok {A B : Type} (m : M host A) (k : A -> M host B) w a w' :
  m w = (Ok a, w') -> bind host m k w = k a w'.
Proof. unfold bind. intros ->. reflexivity. Qed.

Lemma bind_throw {A B : Type} (m : M host A) (k : A -> M host B) w e w' :
  m w = (Throw e, w') -> bind host m k w = (Throw e, w').
Proof. unfold bind. intros ->. reflexivity. Qed.

Lemma bind_ext {A B : Type} (m : M host A) (k k' : A -> M host B) w :
  (forall a w', k a w' = k' a w') -> bind host m k w = bind host m k' w.
Proof.
  intros H. unfold bind. destruct (m w) as [[a|e] w']; [apply H | reflexivity].
Qed.

(** Line 102 and the loop around it. *)
Lemma hydrate_array (elements : list value) (context : value) w :
  hydrate host (VArr elements) context w
  = hydrate_elements host context elements [] w.
Proof.
  cbn [hydrate].
  match goal with
  | |- ?each elements [] w = _ =>
      enough (H : forall results w',
                 each elements results w'
                 = hydrate_elements host context elements results w')
        by apply H
  end.
  induction elements as [|x rest IH]; intros results w'; [reflexivity|].
  cbn [hydrate_elements]. apply bind_ext. intros a w''. apply IH.
Qed.

(** Lines 106-114. A payload object with a truthy [_path] goes to
    [executeDehydrated]; any other is rebuilt key by key. *)
Lemma hydrate_object (p : proto) (fields : list (string * value))
                     (context : value) w :
  hydrate host (VObj p fields) context w
  = if truthy (field fields "_path")
    then executeDehydrated host context (VObj p fields) w
    else hydrate_keys host context fields (keys fields) [] w.
Proof.
  cbn [hydrate].
  match goal with
  | |- context [resolve _ _ _ _ _ (?F fields "_args")] => set (hf := F)
  end.
  assert (Hf : forall fs key, hf fs key = hydrate host (field fs key) context).
  { induction fs as [|[k v] fs IH]; intros key; [reflexivity|].
    unfold field. cbn [hf own]. destruct (k =? key)%string; [reflexivity|].
    apply IH. }
  destruct (truthy (field fields "_path")).
  - unfold executeDehydrated, prop. rewrite Hf. reflexivity.
  - match goal with
    | |- ?each (keys fields) [] w = _ =>
        enough (H : forall rest result w',
                   each rest result w'
                   = hydrate_keys host context fields rest result w')
          by apply H
    end.
    induction rest as [|key rest IH]; intros result w'; [reflexivity|].
    cbn [hydrate_keys]. rewrite Hf. apply bind_ext. intros a w''. apply IH.
Qed.

Lemma hydrate_other (json context : value) w :
  isArray json = false ->
  (forall p fields, json <> VObj p fields) ->
  hydrate host json context w = (Ok json, w).
Proof.
  destruct json; intros Ha Ho; try reflexivity; try discriminate.
  exfalso. eapply Ho. reflexivity.
Qed.

End Equations.

(** ** Texts *)

Lemma startsWith_refl (s : string) : startsWith s s = true.
Proof.
  induction s as [|a s IH]; [reflexivity|].
  cbn. rewrite Ascii.eqb_refl. exact IH.
Qed.

Lemma includes_refl (s : string) : includes s s = true.
Proof.
  destruct s as [|a s]; [reflexivity|].
  cbn [includes]. rewrite startsWith_refl. reflexivity.
Qed.

Lemma includes_suffix (pre s : string) : includes (pre ++ s) s = true.
Proof.
  induction pre as [|a pre IH].
  - apply includes_refl.
  - cbn [append includes]. rewrite IH. apply orb_true_r.
Qed.

(** ** The resolver, case by case *)

Section Resolver.

Variable host : Host.

Notation "x <- m ;; k" := (bind host m (fun x => k))
  (at level 61, m at next level, right associativity).

Lemma hydrate_elements_all (T : value) (l results : list value) w :
  hydrate_elements host T l results w
  = (rs <- hydrate_all host T l ;; ret host (VArr (results ++ rs))) w.
Proof.
  revert results w. induction l as [|x rest IH]; intros results w.
  - cbn. unfold bind, ret. rewrite app_nil_r. reflexivity.
  - cbn [hydrate_elements hydrate_all]. unfold bind.
    destruct (hydrate host x T w) as [[r|e] w1]; [|reflexivity].
    rewrite IH. unfold bind.
    destruct (hydrate_all host T rest w1) as [[rs|e] w2]; [|reflexivity].
    unfold ret. rewrite <- app_assoc. reflexivity.
Qed.

(** Hydrating an argument array hydrates its elements in order. *)
Lemma hydrate_arguments (T : value) (A : list value) w :
  hydrate host (VArr A) T w
  = (rs <- hydrate_all host T A ;; ret host (VArr rs)) w.
Proof. rewrite hydrate_array. apply hydrate_elements_all. Qed.

(** A step taken from undefined or null stays undefined. *)
Lemma walk_from_nullish (v : value) (path_keys : list value) :
  nullish v = true -> path_keys <> [] -> walk host v path_keys = VUndefined.
Proof.
  intros Hv Hk. destruct path_keys as [|k rest]; [now elim Hk|]. clear Hk.
  assert (H : forall l, walk host VUndefined l = VUndefined).
  { induction l as [|x l IH]; [reflexivity | exact IH]. }
  unfold walk. cbn [fold_left].
  destruct v; try discriminate; apply H.
Qed.

Lemma walk_cons (v key : value) (rest : list value) :
  walk host v (key :: rest)
  = walk host (member host v (to_string host key)) rest.
Proof. reflexivity. Qed.

(** A missing step leaves nothing callable at the end of the path. *)
Lemma missing_step_not_callable (T : value) (path_keys : list value) :
  existsb nullish (trail host T path_keys) = true ->
  typeof_function (walk host T path_keys) = false.
Proof.
  revert T. induction path_keys as [|k rest IH]; intros T; [discriminate|].
  cbn [trail existsb]. rewrite walk_cons. intros H.
  apply orb_true_iff in H. destruct H as [H|H]; [|now apply IH].
  destruct rest as [|k' rest].
  - cbn. destruct (member host T (to_string host k)); try discriminate;
      reflexivity.
  - rewrite walk_from_nullish; [reflexivity | exact H | discriminate].
Qed.

(** Line 85. *)
Lemma resolve_not_callable (T _args _class : value) (path_keys : list value)
                           (hydrated_args : M host value) w :
  typeof_function (walk host T path_keys) = false ->
  resolve host T (VArr path_keys) _args _class hydrated_args w
  = (Throw (UnresolvedPathError path_keys host), w).
Proof.
  intros H. unfold resolve. cbn [iterate]. rewrite H. reflexivity.
Qed.

(** Line 83. *)
Lemma resolve_reference (T _path _args _class : value)
                        (path_keys : list value)
                        (hydrated_args : M host value) w :
  iterate _path = Some path_keys ->
  typeof_function (walk host T path_keys) = true ->
  truthy _args = false ->
  resolve host T _path _args _class hydrated_args w
  = (Ok (walk host T path_keys), w).
Proof.
  intros Hp Hf Ha. unfold resolve. rewrite Hp, Hf, Ha. reflexivity.
Qed.

(** Lines 74-81, for an argument array. *)
Lemma resolve_invocation (T _class : value) (path_keys A : list value) w :
  typeof_function (walk host T path_keys) = true ->
  resolve host T (VArr path_keys) (VArr A) _class
          (hydrate host (VArr A) T) w
  = (args <- hydrate_all host T A ;;
     if truthy _class then
       if isClass host (walk host T path_keys)
       then construct host (walk host T path_keys) args
       else throw host (NotAConstructorError path_keys host)
     else call host (walk host T path_keys) args) w.
Proof.
  intros Hf. unfold resolve. cbn [iterate truthy]. rewrite Hf.
  unfold bind. rewrite hydrate_arguments. unfold bind.
  destruct (hydrate_all host T A w) as [[args|e] w']; [|reflexivity].
  cbn. destruct (truthy _class); [|reflexivity].
  destruct (isClass host _); reflexivity.
Qed.

Lemma executeDehydrated_object (T : value) (p : proto)
                               (fields : list (string * value)) w :
  executeDehydrated host T (VObj p fields) w
  = resolve host T (field fields "_path") (field fields "_args")
            (field fields "_class")
            (hydrate host (field fields "_args") T) w.
Proof. reflexivity. Qed.

Lemma field_absent (fields : list (string * value)) (key : string) :
  own fields key = None -> field fields key = VUndefined.
Proof. unfold field. intros ->. reflexivity. Qed.

Lemma resolved_reference (T : value) (p : proto)
                         (fields : list (string * value))
                         (path_keys : list value) w :
  field fields "_path" = VArr path_keys ->
  own fields "_args" = None ->
  typeof_function (walk host T path_keys) = true ->
  executeDehydrated host T (VObj p fields) w
  = (Ok (walk host T path_keys), w).
Proof.
  intros Hp Ha Hf. rewrite executeDehydrated_object, Hp.
  apply resolve_reference; [reflexivity | exact Hf |].
  rewrite field_absent by exact Ha. reflexivity.
Qed.

Lemma resolved_invocation (T : value) (p : proto)
                          (fields : list (string * value))
                          (path_keys A : list value) w :
  field fields "_path" = VArr path_keys ->
  field fields "_args" = VArr A ->
  typeof_function (walk host T path_keys) = true ->
  executeDehydrated host T (VObj p fields) w
  = (args <- hydrate_all host T A ;;
     if truthy (field fields "_class") then
       if isClass host (walk host T path_keys)
       then construct host (walk host T path_keys) args
       else throw host (NotAConstructorError path_keys host)
     else call host (walk host T path_keys) args) w.
Proof.
  intros Hp Ha Hf. rewrite executeDehydrated_object, Hp, Ha.
  apply resolve_invocation. exact Hf.
Qed.

Lemma unresolved_includes_path (path_keys : list value) :
  includes (message (UnresolvedPathError path_keys host))
           (dotted host path_keys) = true.
Proof. apply includes_suffix. Qed.

Lemma not_a_constructor_includes_path (path_keys : list value) :
  includes (message (NotAConstructorError path_keys host))
           (dotted host path_keys) = true.
Proof. apply includes_suffix. Qed.

End Resolver.

(** ** Payloads without descriptors *)

Lemma unique_NoDup (l : list string) : unique l = true -> NoDup l.
Proof.
  induction l as [|k rest IH]; intros H; [constructor|].
  cbn in H. apply andb_true_iff in H. destruct H as [Hk Hr].
  constructor; [|now apply IH].
  intros Hin. apply negb_true_iff in Hk.
  assert (E : existsb (String.eqb k) rest = true).
  { apply existsb_exists. exists k. split; [exact Hin | apply String.eqb_refl]. }
  congruence.
Qed.

Lemma own_skip (l1 l2 : list (string * value)) (key : string) :
  ~ In key (keys l1) -> own (l1 ++ l2) key = own l2 key.
Proof.
  induction l1 as [|[k v] l1 IH]; intros Hn; [reflexivity|].
  cbn in *. destruct (String.eqb_spec k key) as [->|_].
  - elim Hn. now left.
  - apply IH. intros H. apply Hn. now right.
Qed.

Lemma set_own_fresh (l : list (string * value)) (key : string) (v : value) :
  ~ In key (keys l) -> set_own l key v = l ++ [(key, v)].
Proof.
  induction l as [|[k x] l IH]; intros Hn; [reflexivity|].
  cbn in *. destruct (String.eqb_spec k key) as [->|_].
  - elim Hn. now left.
  - f_equal. apply IH. intros H. apply Hn. now right.
Qed.

Lemma keys_copy_fields (fields : list (string * value)) :
  keys (copy_fields fields) = keys fields.
Proof.
  unfold keys, copy_fields. rewrite map_map. reflexivity.
Qed.

Section Payload.

Variable host : Host.
Variable T : value.

Lemma copy_elements (l results : list value) w :
  Forall (copied host T) l ->
  hydrate_elements host T l results w = (Ok (VArr (results ++ map copy l)), w).
Proof.
  intros H. revert results w.
  induction H as [|x rest Hx _ IH]; intros results w; cbn.
  - unfold ret. rewrite app_nil_r. reflexivity.
  - erewrite bind_ok by apply Hx. rewrite IH, <- app_assoc. reflexivity.
Qed.

Lemma copy_keys (fields : list (string * value)) :
  NoDup (keys fields) ->
  Forall (fun kv => copied host T (snd kv)) fields ->
  forall done rest w,
    fields = done ++ rest ->
    hydrate_keys host T fields (keys rest) (copy_fields done) w
    = (Ok (VObj NullProto (copy_fields fields)), w).
Proof.
  intros Hu Hc done rest. revert done.
  induction rest as [|[k v] rest IH]; intros done w E.
  - rewrite app_nil_r in E. subst done. reflexivity.
  - assert (Hk : ~ In k (keys done)).
    { subst fields. unfold keys in *. rewrite map_app in Hu. cbn in Hu.
      apply NoDup_remove_2 in Hu. intros H. apply Hu, in_or_app. now left. }
    assert (Hv : copied host T v).
    { rewrite Forall_forall in Hc. apply (Hc (k, v)).
      subst fields. apply in_or_app. right. now left. }
    cbn [keys map fst hydrate_keys].
    assert (Ef : field fields k = v).
    { unfold field. subst fields. rewrite own_skip by exact Hk.
      cbn. rewrite String.eqb_refl. reflexivity. }
    rewrite Ef. erewrite bind_ok by apply Hv.
    rewrite set_own_fresh by (rewrite keys_copy_fields; exact Hk).
    replace (copy_fields done ++ [(k, copy v)])
      with (copy_fields (done ++ [(k, v)]))
      by (unfold copy_fields; rewrite map_app; reflexivity).
    apply IH. rewrite <- app_assoc. exact E.
Qed.

Lemma hydrate_copies (v : value) :
  json_shaped v = true -> descriptor_free v = true -> copied host T v.
Proof.
  induction v as [| |b|n|s|l IH|p fields IH|r fields IH] using value_ind;
    intros Hj Hd w; try reflexivity; try discriminate.
  - rewrite hydrate_array. apply (copy_elements l []).
    cbn in Hj, Hd. rewrite forallb_forall in Hj, Hd.
    rewrite Forall_forall in *. intros x Hx. apply IH; auto.
  - destruct p; try discriminate. cbn in Hj, Hd.
    apply andb_true_iff in Hj. destruct Hj as [Hu Hj].
    apply andb_true_iff in Hd. destruct Hd as [Hp Hd].
    apply negb_true_iff in Hp.
    rewrite hydrate_object, Hp.
    apply (copy_keys fields (unique_NoDup _ Hu)) with (done := []);
      [|reflexivity].
    rewrite forallb_forall in Hj, Hd. rewrite Forall_forall in *.
    intros kv Hkv. apply IH; auto.
Qed.

End Payload.

Lemma copy_structurally_equal (v : value) : structurally_equal (copy v) v.
Proof.
  induction v as [| |b|n|s|l IH|p fields IH|r fields IH] using value_ind;
    cbn; try constructor.
  - induction IH as [|x rest Hx _ IHr]; cbn; constructor; assumption.
  - induction IH as [|kv rest Hkv _ IHr]; cbn; constructor; [|assumption].
    split; [reflexivity | exact Hkv].
Qed.

Lemma dotted_names (host : Host) (p : list string) :
  dotted host (map VStr p) = join "." p.
Proof.
  unfold dotted. rewrite map_map. cbn. rewrite map_id. reflexivity.
Qed.

(** What the capturer returns are the descriptors above. *)
Lemma capturer_output (path : list string) (args : list value) :
  capturer false path false args = Ok (call_descriptor path args)
  /\ capturer true path true args = Ok (construct_descriptor path args)
  /\ prop (toJSON path) "_path" = VArr (map VStr path)
  /\ own [("_path", VArr (map VStr path))] "_args" = None.
Proof. repeat split. Qed.

Lemma own_set_own_other (fields : list (string * value)) (key other : string)
                        (v : value) :
  other <> key -> own (set_own fields other v) key = own fields key.
Proof.
  intros Hn. induction fields as [|[k x] rest IH]; cbn.
  - destruct (String.eqb_spec other key); [contradiction | reflexivity].
  - destruct (String.eqb_spec k other) as [->|Hk]; cbn.
    + destruct (String.eqb_spec other key); [contradiction | reflexivity].
    + destruct (k =? key)%string; [reflexivity | exact IH].
Qed.

(** * The claims *)

(** C1. For every capability tree [T], every path [p] that leads to a
    callable in [T] and every argument list [A], resolving
    [{_path: p, _args: A}] hydrates [A] from left to right and then calls the
    callable at [p] with the hydrated arguments, in the world hydration left,
    and returns what the call returns. A descriptor among the arguments is
    resolved while they are hydrated, so before the outer call. On the tree
    [{sqrt, max}] the descriptor of [max(sqrt(16), 3)] yields 4, [sqrt]
    being called first, with 16, and [max] next, with 4 and 3. The resolver
    does not ask whether the callable is a class when the descriptor has no
    [_class]. *)
Theorem resolve_invokes_with_hydrated_arguments :
  (forall (host : Host) (T : value) (p : list string) (A : list value)
          (w : World host),
      typeof_function (walk host T (map VStr p)) = true ->
      executeDehydrated host T (call_descriptor p A) w
      = bind host (hydrate_all host T A)
             (call host (walk host T (map VStr p))) w)
  /\ (forall (host : Host) (T : value) (pr : proto)
             (fields : list (string * value)) (rest : list value)
             (w : World host),
         truthy (field fields "_path") = true ->
         hydrate_all host T (VObj pr fields :: rest) w
         = bind host (executeDehydrated host T (VObj pr fields)) (fun r =>
           bind host (hydrate_all host T rest) (fun rs =>
           ret host (r :: rs))) w)
  /\ executeDehydrated Demo.host Demo.math
       (call_descriptor ["max"] [call_descriptor ["sqrt"] [VNum 16]; VNum 3])
       Demo.start
     = (Ok (VNum 4),
        (tt, [Call Demo.sqrt [VNum 16]; Call Demo.max [VNum 4; VNum 3]])).
Proof.
  split; [|split].
  - intros host T p A w Hf. unfold call_descriptor.
    rewrite (resolved_invocation host T ObjectProto _ (map VStr p) A w);
      [reflexivity | reflexivity | reflexivity | exact Hf].
  - intros host T pr fields rest w Hp. cbn [hydrate_all]. unfold bind.
    rewrite hydrate_object, Hp. reflexivity.
  - reflexivity.
Qed.

Lemma resolve_invokes_witness :
  typeof_function (walk Demo.host Demo.math (map VStr ["max"])) = true
  /\ executeDehydrated Demo.host Demo.math
       (call_descriptor ["max"] [VNum 1; VNum 7; VNum 3]) Demo.start
     = bind Demo.host (hydrate_all Demo.host Demo.math [VNum 1; VNum 7; VNum 3])
            (call Demo.host (walk Demo.host Demo.math (map VStr ["max"])))
            Demo.start
  /\ truthy (field [("_path", VArr [VStr "sqrt"]); ("_args", VArr [VNum 9])]
                   "_path") = true
  /\ hydrate_all Demo.host Demo.math [call_descriptor ["sqrt"] [VNum 9]]
       Demo.start
     = bind Demo.host
         (executeDehydrated Demo.host Demo.math
            (call_descriptor ["sqrt"] [VNum 9])) (fun r =>
       bind Demo.host (hydrate_all Demo.host Demo.math []) (fun rs =>
       ret Demo.host (r :: rs))) Demo.start.
Proof.
  split; [reflexivity|]. split.
  - apply (proj1 resolve_invokes_with_hydrated_arguments). reflexivity.
  - split; [reflexivity|].
    apply (proj1 (proj2 resolve_invokes_with_hydrated_arguments)
             Demo.host Demo.math ObjectProto).
    reflexivity.
Defined.

(** C2. For every JSON-shaped payload in which [hydrate] finds no Call
    Descriptor and every capability tree, [hydrate] returns, without touching
    the world, a value structurally equal to the payload: arrays with the
    same elements in the same order, objects with the same keys and hydrated
    values, primitives as they are. *)
Theorem hydrate_without_descriptors :
  forall (host : Host) (payload T : value) (w : World host),
    json_shaped payload = true ->
    descriptor_free payload = true ->
    exists r, hydrate host payload T w = (Ok r, w)
              /\ structurally_equal r payload.
Proof.
  intros host payload T w Hj Hd. exists (copy payload). split.
  - now apply hydrate_copies.
  - apply copy_structurally_equal.
Qed.

Lemma hydrate_without_descriptors_witness :
  let payload :=
    VObj ObjectProto [("a", VNum 1); ("b", VArr [VStr "x"; VNull]);
                      ("c", VObj ObjectProto [("k", VBool true)])] in
  json_shaped payload = true
  /\ descriptor_free payload = true
  /\ exists r, hydrate Demo.host payload Demo.math Demo.start
               = (Ok r, Demo.start)
               /\ structurally_equal r payload.
Proof.
  split; [reflexivity|]. split; [reflexivity|].
  apply (hydrate_without_descriptors Demo.host); reflexivity.
Defined.

(** C3. For every capability tree and every descriptor with an array
    [_path], if a step of the path yields undefined or null, or the value at
    the end of the path is not a function, resolution throws
    [UnresolvedPathError] without touching the world, and the message
    includes the dotted path. [{_path: ["Missing", "fn"]}] against [{}] fails
    with a message that includes "Missing.fn" on every host whose
    [Object.prototype] has no property [Missing]. *)
Theorem unresolved_path_is_reported :
  (forall (host : Host) (T : value) (pr : proto)
          (fields : list (string * value)) (path_keys : list value)
          (w : World host),
      field fields "_path" = VArr path_keys ->
      existsb nullish (trail host T path_keys) = true
      \/ typeof_function (walk host T path_keys) = false ->
      executeDehydrated host T (VObj pr fields) w
      = (Throw (UnresolvedPathError path_keys host), w)
      /\ includes (message (UnresolvedPathError path_keys host))
                  (dotted host path_keys) = true)
  /\ (forall (host : Host) (w : World host),
         inherited host ObjectProto "Missing" = VUndefined ->
         executeDehydrated host (VObj ObjectProto [])
           (VObj ObjectProto [("_path", VArr [VStr "Missing"; VStr "fn"])]) w
         = (Throw (Error
                     "context does not have a function at path: Missing.fn"),
            w)
         /\ includes "context does not have a function at path: Missing.fn"
                     "Missing.fn" = true).
Proof.
  split.
  - intros host T pr fields path_keys w Hp H. split.
    + rewrite executeDehydrated_object, Hp. apply resolve_not_callable.
      destruct H as [H|H]; [now apply missing_step_not_callable | exact H].
    + apply unresolved_includes_path.
  - intros host w Hm. split; [|reflexivity].
    rewrite executeDehydrated_object. cbn [field own String.eqb].
    cbn. unfold resolve. cbn [iterate]. unfold walk. cbn.
    rewrite Hm. reflexivity.
Qed.

Lemma unresolved_path_witness :
  let keys := [VStr "sqrt"; VStr "nope"; VStr "x"] in
  field [("_path", VArr keys)] "_path" = VArr keys
  /\ (existsb nullish (trail Demo.host Demo.math keys) = true
      \/ typeof_function (walk Demo.host Demo.math keys) = false)
  /\ (executeDehydrated Demo.host Demo.math
        (VObj ObjectProto [("_path", VArr keys)]) Demo.start
      = (Throw (UnresolvedPathError keys Demo.host), Demo.start)
      /\ includes (message (UnresolvedPathError keys Demo.host))
                  (dotted Demo.host keys) = true)
  /\ inherited Demo.host ObjectProto "Missing" = VUndefined
  /\ (executeDehydrated Demo.host (VObj ObjectProto [])
        (VObj ObjectProto [("_path", VArr [VStr "Missing"; VStr "fn"])])
        Demo.start
      = (Throw (Error "context does not have a function at path: Missing.fn"),
         Demo.start)
      /\ includes "context does not have a function at path: Missing.fn"
                  "Missing.fn" = true).
Proof.
  cbv zeta.
  split; [reflexivity|]. split; [left; reflexivity|]. split.
  - apply (proj1 unresolved_path_is_reported Demo.host Demo.math ObjectProto);
      [reflexivity | left; reflexivity].
  - split; [reflexivity|].
    apply (proj2 unresolved_path_is_reported Demo.host). reflexivity.
Defined.

(** C4, as stated, fails: the resolver never throws [InvocationModeError].
    On the tree [{C: {Box}, f}] with the class [Box], resolving
    [{_path: ["C", "Box"], _args: [16]}] makes the plain call [Box(16)], line
    81; what is thrown is the language's TypeError for a class called without
    [new]. *)
Lemma resolver_has_no_invocation_mode_error :
  walk Demo.host Demo.shapes (map VStr ["C"; "Box"]) = Demo.Box
  /\ isClass Demo.host Demo.Box = true
  /\ executeDehydrated Demo.host Demo.shapes
       (call_descriptor ["C"; "Box"] [VNum 16]) Demo.start
     = (Throw (TypeError ClassWithoutNew), (tt, [Call Demo.Box [VNum 16]]))
  /\ forall w, executeDehydrated Demo.host Demo.shapes
                 (call_descriptor ["C"; "Box"] [VNum 16]) Demo.start
               <> (Throw InvocationModeError, w).
Proof.
  repeat split; try reflexivity. intros w. discriminate.
Qed.

(** C4, amended. For every constructor-style callable reached via [p]:
    with [_class: true] resolution hydrates the arguments and constructs an
    instance with them, as [new] on the callable would; without [_class] it
    hydrates the arguments and makes a plain call of the callable, returning
    or throwing whatever that call does. [InvocationModeError] is thrown at
    capture time only, when the capturer of a class is called without [new]. *)
Theorem constructor_style_resolution :
  (forall (host : Host) (T : value) (p : list string) (A : list value)
          (w : World host),
      typeof_function (walk host T (map VStr p)) = true ->
      isClass host (walk host T (map VStr p)) = true ->
      executeDehydrated host T (construct_descriptor p A) w
      = bind host (hydrate_all host T A)
             (construct host (walk host T (map VStr p))) w
      /\ executeDehydrated host T (call_descriptor p A) w
         = bind host (hydrate_all host T A)
                (call host (walk host T (map VStr p))) w)
  /\ (forall (path : list string) (args : list value),
         capturer true path false args = Throw InvocationModeError).
Proof.
  split.
  - intros host T p A w Hf Hc. split.
    + unfold construct_descriptor.
      rewrite (resolved_invocation host T ObjectProto _ (map VStr p) A w);
        [|reflexivity | reflexivity | exact Hf].
      cbn [field own String.eqb Ascii.eqb Bool.eqb truthy].
      rewrite Hc. reflexivity.
    + unfold call_descriptor.
      rewrite (resolved_invocation host T ObjectProto _ (map VStr p) A w);
        [reflexivity | reflexivity | reflexivity | exact Hf].
  - reflexivity.
Qed.

Lemma constructor_style_resolution_witness :
  typeof_function (walk Demo.host Demo.shapes (map VStr ["C"; "Box"])) = true
  /\ isClass Demo.host (walk Demo.host Demo.shapes (map VStr ["C"; "Box"]))
     = true
  /\ executeDehydrated Demo.host Demo.shapes
       (construct_descriptor ["C"; "Box"] [VNum 123]) Demo.start
     = bind Demo.host (hydrate_all Demo.host Demo.shapes [VNum 123])
            (construct Demo.host
               (walk Demo.host Demo.shapes (map VStr ["C"; "Box"])))
            Demo.start
  /\ executeDehydrated Demo.host Demo.shapes
       (call_descriptor ["C"; "Box"] [VNum 123]) Demo.start
     = bind Demo.host (hydrate_all Demo.host Demo.shapes [VNum 123])
            (call Demo.host
               (walk Demo.host Demo.shapes (map VStr ["C"; "Box"])))
            Demo.start.
Proof.
  split; [reflexivity|]. split; [reflexivity|].
  apply (proj1 constructor_style_resolution Demo.host Demo.shapes
           ["C"; "Box"] [VNum 123] Demo.start); reflexivity.
Defined.

(** C5, as stated, fails: [{_path: null}] has a [_path] field, yet [hydrate]
    rebuilds it as a plain object; handing it to [executeDehydrated] would
    have thrown. *)
Lemma falsy_path_is_not_a_descriptor :
  own [("_path", VNull)] "_path" = Some VNull
  /\ hydrate Demo.host (VObj ObjectProto [("_path", VNull)]) Demo.math
       Demo.start
     = (Ok (VObj NullProto [("_path", VNull)]), Demo.start)
  /\ executeDehydrated Demo.host Demo.math
       (VObj ObjectProto [("_path", VNull)]) Demo.start
     = (Throw (TypeError NotIterable), Demo.start).
Proof. repeat split. Qed.

(** C5, amended. For every payload object, [hydrate] hands the object to
    [executeDehydrated] exactly when its [_path] is truthy, and otherwise
    rebuilds it key by key. Nothing but [_path] enters the decision: writing
    any other field of the object leaves it as it was. Arrays are never
    handed over. *)
Theorem descriptor_recognition :
  (forall (host : Host) (p : proto) (fields : list (string * value))
          (T : value) (w : World host),
      hydrate host (VObj p fields) T w
      = if truthy (field fields "_path")
        then executeDehydrated host T (VObj p fields) w
        else hydrate_keys host T fields (keys fields) [] w)
  /\ (forall (fields : list (string * value)) (other : string) (v : value),
         other <> "_path" ->
         truthy (field (set_own fields other v) "_path")
         = truthy (field fields "_path"))
  /\ (forall (host : Host) (elements : list value) (T : value)
             (w : World host),
         hydrate host (VArr elements) T w
         = hydrate_elements host T elements [] w).
Proof.
  split; [|split].
  - intros. apply hydrate_object.
  - intros fields other v Hn. unfold field.
    rewrite own_set_own_other by exact Hn. reflexivity.
  - intros. apply hydrate_array.
Qed.

Lemma descriptor_recognition_witness :
  "_args" <> "_path"
  /\ truthy (field (set_own [("_path", VNull)] "_args" (VArr [])) "_path")
     = truthy (field [("_path", VNull)] "_path")
  /\ hydrate Demo.host (call_descriptor ["sqrt"] [VNum 9]) Demo.math
       Demo.start
     = executeDehydrated Demo.host Demo.math (call_descriptor ["sqrt"] [VNum 9])
         Demo.start.
Proof.
  split; [discriminate|]. split.
  - apply (proj1 (proj2 descriptor_recognition)). discriminate.
  - apply (proj1 descriptor_recognition Demo.host ObjectProto
             [("_path", VArr [VStr "sqrt"]); ("_args", VArr [VNum 9])]).
Defined.

(** C6. For every capability tree and every descriptor whose path leads to a
    callable and which has no [_args] field, resolution returns that very
    callable, the value found by walking the path, and leaves the world as it
    was. Nothing is invoked: on the host that records invocations the record
    is the same afterwards. *)
Theorem reference_resolves_to_the_callable :
  forall (host : Host) (T : value) (pr : proto)
         (fields : list (string * value)) (path_keys : list value),
    field fields "_path" = VArr path_keys ->
    own fields "_args" = None ->
    typeof_function (walk host T path_keys) = true ->
    (forall w : World host,
        executeDehydrated host T (VObj pr fields) w
        = (Ok (walk host T path_keys), w))
    /\ (forall (w : World host) (made : list invocation),
           executeDehydrated (recording host) T (VObj pr fields) (w, made)
           = (Ok (walk host T path_keys), (w, made))).
Proof.
  intros host T pr fields path_keys Hp Ha Hf. split.
  - intros w. now apply resolved_reference.
  - intros w made.
    apply (resolved_reference (recording host) T pr fields path_keys);
      assumption.
Qed.

Lemma reference_resolves_witness :
  field [("_path", VArr [VStr "sqrt"])] "_path" = VArr [VStr "sqrt"]
  /\ own [("_path", VArr [VStr "sqrt"])] "_args" = None
  /\ typeof_function (walk Demo.host Demo.math [VStr "sqrt"]) = true
  /\ executeDehydrated Demo.host Demo.math
       (VObj ObjectProto [("_path", VArr [VStr "sqrt"])]) Demo.start
     = (Ok (walk Demo.host Demo.math [VStr "sqrt"]), Demo.start).
Proof.
  split; [reflexivity|]. split; [reflexivity|]. split; [reflexivity|].
  apply (reference_resolves_to_the_callable Demo.host); reflexivity.
Defined.

(** C7. For every descriptor with [_class: true] and an argument array whose
    path leads to a callable: resolution hydrates the arguments; then, if the
    callable is not a class, it throws [NotAConstructorError], whose message
    includes the dotted path, and if it is a class it constructs an instance
    with the hydrated arguments and returns it. *)
Theorem constructor_flag_requires_class :
  forall (host : Host) (T : value) (pr : proto)
         (fields : list (string * value)) (path_keys A : list value)
         (w : World host),
    field fields "_path" = VArr path_keys ->
    field fields "_args" = VArr A ->
    field fields "_class" = VBool true ->
    typeof_function (walk host T path_keys) = true ->
    (isClass host (walk host T path_keys) = false ->
     executeDehydrated host T (VObj pr fields) w
     = bind host (hydrate_all host T A)
            (fun _ => throw host (NotAConstructorError path_keys host)) w
     /\ includes (message (NotAConstructorError path_keys host))
                 (dotted host path_keys) = true)
    /\ (isClass host (walk host T path_keys) = true ->
        executeDehydrated host T (VObj pr fields) w
        = bind host (hydrate_all host T A)
               (construct host (walk host T path_keys)) w).
Proof.
  intros host T pr fields path_keys A w Hp Ha Hc Hf.
  rewrite (resolved_invocation host T pr fields path_keys A w Hp Ha Hf), Hc.
  cbn [truthy]. split; intros Hk; rewrite Hk.
  - split; [reflexivity | apply not_a_constructor_includes_path].
  - reflexivity.
Qed.

Lemma constructor_flag_witness :
  let fields := [("_path", VArr [VStr "f"]); ("_args", VArr [VNum 2]);
                 ("_class", VBool true)] in
  field fields "_path" = VArr [VStr "f"]
  /\ field fields "_args" = VArr [VNum 2]
  /\ field fields "_class" = VBool true
  /\ typeof_function (walk Demo.host Demo.shapes [VStr "f"]) = true
  /\ isClass Demo.host (walk Demo.host Demo.shapes [VStr "f"]) = false
  /\ executeDehydrated Demo.host Demo.shapes (VObj ObjectProto fields)
       Demo.start
     = (Throw (Error "context does not have a class at path: f"), Demo.start).
Proof.
  cbv zeta. do 5 (split; [reflexivity|]).
  rewrite (proj1 (proj1 (constructor_flag_requires_class Demo.host Demo.shapes
                    ObjectProto
                    [("_path", VArr [VStr "f"]); ("_args", VArr [VNum 2]);
                     ("_class", VBool true)]
                    [VStr "f"] [VNum 2] Demo.start
                    eq_refl eq_refl eq_refl eq_refl) eq_refl)).
  reflexivity.
Defined.

(** C8, as stated, fails for [InvocationModeError]: the capturer reached at
    [C.Box] throws, when called without [new], an error whose message does
    not include "C.Box". *)
Lemma invocation_mode_error_names_no_path :
  get Demo.host Demo.shapes [] "C"
  = Ok (Namespace (VObj ObjectProto [("Box", Demo.Box)]) ["C"])
  /\ get Demo.host (VObj ObjectProto [("Box", Demo.Box)]) ["C"] "Box"
     = Ok (Capture true ["C"; "Box"])
  /\ capturer true ["C"; "Box"] false [VStr "value"]
     = Throw (Error "captured class instantiations should also use 'new'")
  /\ join "." ["C"; "Box"] = "C.Box"
  /\ includes "captured class instantiations should also use 'new'" "C.Box"
     = false.
Proof. repeat split. Qed.

(** C8, amended. The three errors index.js builds with a path name it in
    full: [PathError], the only error navigation of a capturing proxy throws;
    [UnresolvedPathError], thrown when the path of a descriptor does not end
    at a function; [NotAConstructorError], thrown once the arguments are
    hydrated when [_class] is set and the target is no class. The message of
    [InvocationModeError] is a fixed text whatever the path. *)
Theorem error_messages_name_the_path :
  (forall (host : Host) (target : value) (path : list string) (key : string)
          (e : exn),
      get host target path key = Throw e ->
      e = PathError (path ++ [key])
      /\ includes (message e) (join "." (path ++ [key])) = true)
  /\ (forall (host : Host) (T : value) (pr : proto)
             (fields : list (string * value)) (path_keys : list value)
             (w : World host),
         field fields "_path" = VArr path_keys ->
         typeof_function (walk host T path_keys) = false ->
         executeDehydrated host T (VObj pr fields) w
         = (Throw (UnresolvedPathError path_keys host), w)
         /\ includes (message (UnresolvedPathError path_keys host))
                     (dotted host path_keys) = true)
  /\ (forall (host : Host) (T : value) (pr : proto)
             (fields : list (string * value)) (path_keys A args : list value)
             (w w' : World host),
         field fields "_path" = VArr path_keys ->
         field fields "_args" = VArr A ->
         truthy (field fields "_class") = true ->
         typeof_function (walk host T path_keys) = true ->
         isClass host (walk host T path_keys) = false ->
         hydrate_all host T A w = (Ok args, w') ->
         executeDehydrated host T (VObj pr fields) w
         = (Throw (NotAConstructorError path_keys host), w')
         /\ includes (message (NotAConstructorError path_keys host))
                     (dotted host path_keys) = true)
  /\ (forall (path : list string) (args : list value),
         capturer true path false args = Throw InvocationModeError
         /\ message InvocationModeError
            = "captured class instantiations should also use 'new'").
Proof.
  split; [|split; [|split]].
  - intros host target path key e. unfold get, createCallCapturer.
    destruct (typeof_function (member host target key)); [discriminate|].
    destruct (truthy (member host target key)
              && typeof_object (member host target key)) eqn:E.
    + cbn [orb]. discriminate.
    + intros H.
      assert (E' : e = PathError (path ++ [key]))
        by (unfold PathError; congruence).
      subst e. split; [reflexivity|].
      exact (includes_suffix "context does not have function for path: " _).
  - intros host T pr fields path_keys w Hp Hf. split.
    + rewrite executeDehydrated_object, Hp. now apply resolve_not_callable.
    + apply unresolved_includes_path.
  - intros host T pr fields path_keys A args w w' Hp Ha Hc Hf Hk Hh. split.
    + rewrite (resolved_invocation host T pr fields path_keys A w Hp Ha Hf).
      rewrite (bind_ok host _ _ _ _ _ Hh), Hc, Hk. reflexivity.
    + apply not_a_constructor_includes_path.
  - intros path args. split; reflexivity.
Qed.

Lemma error_messages_witness :
  (get Demo.host (VObj ObjectProto [("value", VNum 42)]) ["a"] "value"
   = Throw (Error "context does not have function for path: a.value")
   /\ includes "context does not have function for path: a.value" "a.value"
      = true)
  /\ (typeof_function (walk Demo.host Demo.math [VStr "max"; VStr "PI"])
      = false
      /\ executeDehydrated Demo.host Demo.math
           (VObj ObjectProto [("_path", VArr [VStr "max"; VStr "PI"])])
           Demo.start
         = (Throw (UnresolvedPathError [VStr "max"; VStr "PI"] Demo.host),
            Demo.start))
  /\ (hydrate_all Demo.host Demo.shapes [VNum 2] Demo.start
      = (Ok [VNum 2], Demo.start)
      /\ executeDehydrated Demo.host Demo.shapes
           (construct_descriptor ["f"] [VNum 2]) Demo.start
         = (Throw (NotAConstructorError [VStr "f"] Demo.host), Demo.start)).
Proof.
  split; [|split].
  - destruct (proj1 error_messages_name_the_path Demo.host
                (VObj ObjectProto [("value", VNum 42)]) ["a"] "value" _
                eq_refl) as [_ H].
    split; [reflexivity | exact H].
  - split; [reflexivity|].
    apply (proj1 (proj2 error_messages_name_the_path) Demo.host Demo.math
             ObjectProto); reflexivity.
  - split; [reflexivity|].
    apply (proj1 (proj2 (proj2 error_messages_name_the_path)) Demo.host
             Demo.shapes ObjectProto _ [VStr "f"] [VNum 2] [VNum 2]
             Demo.start Demo.start);
      reflexivity.
Defined.

(** C9. For every capability tree and every descriptor whose path leads to a
    callable, which has no [_args] field and carries [_class: true],
    resolution does not fail: the flag is not looked at and the callable
    itself is returned, the world left as it was. *)
Theorem class_flag_ignored_on_reference :
  forall (host : Host) (T : value) (pr : proto)
         (fields : list (string * value)) (path_keys : list value)
         (w : World host),
    field fields "_path" = VArr path_keys ->
    own fields "_args" = None ->
    field fields "_class" = VBool true ->
    typeof_function (walk host T path_keys) = true ->
    executeDehydrated host T (VObj pr fields) w
    = (Ok (walk host T path_keys), w).
Proof. intros. now apply resolved_reference. Qed.

Lemma class_flag_ignored_witness :
  let fields := [("_path", VArr [VStr "C"; VStr "Box"]);
                 ("_class", VBool true)] in
  field fields "_path" = VArr [VStr "C"; VStr "Box"]
  /\ own fields "_args" = None
  /\ field fields "_class" = VBool true
  /\ typeof_function (walk Demo.host Demo.shapes [VStr "C"; VStr "Box"]) = true
  /\ executeDehydrated Demo.host Demo.shapes (VObj ObjectProto fields)
       Demo.start
     = (Ok (walk Demo.host Demo.shapes [VStr "C"; VStr "Box"]), Demo.start).
Proof.
  cbv zeta. do 4 (split; [reflexivity|]).
  apply (class_flag_ignored_on_reference Demo.host); reflexivity.
Defined.

(** C10. The walk uses ordinary property access. Whenever the prototype of
    functions provides a function [call], and the tree has at [f] a function
    without a property [call] of its own, the path [["f", "call"]] leads to
    the inherited function, and resolving [{_path: ["f", "call"], _args: A}]
    hydrates [A] and invokes it. There is such a tree: on [{C: {Box}, f}]
    with the plain function [f], the inherited function is invoked, and what
    resolution throws is what that call throws, not [UnresolvedPathError]. *)
Theorem inherited_method_is_invoked :
  (forall (host : Host) (T : value) (r : nat) (fs : list (string * value))
          (A : list value) (w : World host),
      member host T "f" = VFun r fs ->
      own fs "call" = None ->
      typeof_function (inherited host FunctionProto "call") = true ->
      walk host T (map VStr ["f"; "call"]) = inherited host FunctionProto "call"
      /\ executeDehydrated host T (call_descriptor ["f"; "call"] A) w
         = bind host (hydrate_all host T A)
                (call host (inherited host FunctionProto "call")) w)
  /\ (exists T : value,
         member Demo.host T "f" = Demo.sqrt
         /\ isClass Demo.host Demo.sqrt = false
         /\ walk Demo.host T (map VStr ["f"; "call"])
            = Demo.Function_prototype_call
         /\ executeDehydrated Demo.host T
              (call_descriptor ["f"; "call"] [VNum 16]) Demo.start
            = (Throw (TypeError NotAFunction),
               (tt, [Call Demo.Function_prototype_call [VNum 16]]))
         /\ forall w,
              executeDehydrated Demo.host T
                (call_descriptor ["f"; "call"] [VNum 16]) Demo.start
              <> (Throw (UnresolvedPathError (map VStr ["f"; "call"])
                           Demo.host), w)).
Proof.
  split.
  - intros host T r fs A w Hm Ho Hf.
    assert (Hw : walk host T (map VStr ["f"; "call"])
                 = inherited host FunctionProto "call").
    { unfold walk. cbn [map fold_left to_string]. rewrite Hm.
      cbn [member]. rewrite Ho. reflexivity. }
    split; [exact Hw|].
    unfold call_descriptor.
    rewrite (resolved_invocation host T ObjectProto _
               (map VStr ["f"; "call"]) A w);
      [| reflexivity | reflexivity | rewrite Hw; exact Hf].
    rewrite Hw. reflexivity.
  - exists Demo.shapes.
    repeat split; try reflexivity. intros w. discriminate.
Qed.

Lemma inherited_method_witness :
  member Demo.host Demo.shapes "f" = VFun Demo.sqrt_ref []
  /\ own [] "call" = None
  /\ typeof_function (inherited Demo.host FunctionProto "call") = true
  /\ walk Demo.host Demo.shapes (map VStr ["f"; "call"])
     = inherited Demo.host FunctionProto "call"
  /\ executeDehydrated Demo.host Demo.shapes
       (call_descriptor ["f"; "call"] [VNum 16]) Demo.start
     = bind Demo.host (hydrate_all Demo.host Demo.shapes [VNum 16])
            (call Demo.host (inherited Demo.host FunctionProto "call"))
            Demo.start.
Proof.
  do 3 (split; [reflexivity|]).
  apply (proj1 inherited_method_is_invoked Demo.host Demo.shapes
           Demo.sqrt_ref []); reflexivity.
Defined.

(** * Further properties of index.js *)

(** ** Capture *)

Section Capture.

Variable host : Host.

Lemma walk_names_cons (T : value) (key : string) (rest : list string) :
  walk host T (map VStr (key :: rest))
  = walk host (member host T key) (map VStr rest).
Proof. reflexivity. Qed.


(** What one [get] gives, by the kind of value found at [key]. *)
Lemma get_cases (target : value) (path : list string) (key : string) :
  let v := member host target key in
  (typeof_function v = true
   /\ get host target path key = Ok (Capture (isClass host v) (path ++ [key])))
  \/ (typeof_function v = false /\ truthy v && typeof_object v = true
      /\ get host target path key = Ok (Namespace v (path ++ [key])))
  \/ (typeof_function v = false /\ truthy v && typeof_object v = false
      /\ get host target path key = Throw (PathError (path ++ [key]))).
Proof.
  cbv zeta. unfold get, createCallCapturer.
  destruct (typeof_function (member host target key)); [left; auto|].
  destruct (truthy (member host target key)
            && typeof_object (member host target key)); [right; left|right; right];
    auto.
Qed.

Lemma navigate_arrives (names : list string) :
  forall (T : value) (path : list string) (c : captured),
    navigate host (Namespace T path) names = Ok (Some c) ->
    match c with
    | Capture class p =>
        p = path ++ names
        /\ typeof_function (walk host T (map VStr names)) = true
        /\ class = isClass host (walk host T (map VStr names))
    | Namespace t p =>
        p = path ++ names /\ t = walk host T (map VStr names)
    end.
Proof.
  induction names as [|key rest IH]; intros T path c H.
  - cbn in H. injection H as <-. rewrite app_nil_r. split; reflexivity.
  - cbn [navigate] in H. rewrite walk_names_cons.
    destruct (get_cases T path key) as [[Hf E]|[[Hf [Ho E]]|[Hf [Ho E]]]];
      rewrite E in H.
    + destruct rest as [|k rest]; [|discriminate].
      cbn in H. injection H as <-. auto.
    + apply IH in H. destruct c as [class p|t p].
      * destruct H as [-> H]. rewrite <- app_assoc. auto.
      * destruct H as [-> H]. rewrite <- app_assoc. auto.
    + discriminate.
Qed.


Lemma dehydrate_navigate (T : value) (names : list string) (c : captured) :
  dehydrate T (fun proxy => navigate host proxy names) = Ok (Some c) ->
  navigate host (Namespace T []) names = Ok (Some c).
Proof.
  unfold dehydrate, createCallCapturer.
  destruct (typeof_function T || truthy T && typeof_object T);
    [trivial | discriminate].
Qed.

End Capture.

(** X1. Navigating names through the capturing proxies collects exactly the
    names: a capturer reached from the root proxy carries the names asked
    for, the tree has a function at that path, and the capturer is of the
    class kind exactly when [isClass] accepts that function; a proxy reached
    wraps the value the tree has at that path. *)
Theorem navigation_tracks_the_tree :
  forall (host : Host) (T : value) (names : list string) (c : captured),
    dehydrate T (fun proxy => navigate host proxy names) = Ok (Some c) ->
    match c with
    | Capture class p =>
        p = names
        /\ typeof_function (walk host T (map VStr names)) = true
        /\ class = isClass host (walk host T (map VStr names))
    | Namespace t p =>
        p = names /\ t = walk host T (map VStr names)
    end.
Proof.
  intros host T names c H. apply dehydrate_navigate in H.
  apply navigate_arrives in H. exact H.
Qed.

Lemma navigation_tracks_the_tree_witness :
  dehydrate Demo.shapes (fun proxy => navigate Demo.host proxy ["C"; "Box"])
  = Ok (Some (Capture true ["C"; "Box"]))
  /\ (["C"; "Box"] = ["C"; "Box"]
      /\ typeof_function (walk Demo.host Demo.shapes (map VStr ["C"; "Box"]))
         = true
      /\ true = isClass Demo.host
                  (walk Demo.host Demo.shapes (map VStr ["C"; "Box"]))).
Proof.
  split; [reflexivity|].
  apply (navigation_tracks_the_tree Demo.host Demo.shapes ["C"; "Box"]
           (Capture true ["C"; "Box"])).
  reflexivity.
Defined.



(** X3. Capture and hydration agree on plain calls: if the builder reaches a
    plain capturer by navigating names, the descriptor it returns when called
    with [A], hydrated against the same tree, hydrates [A] and calls the
    function of the tree at those names with the result. *)
Theorem captured_call_round_trip :
  forall (host : Host) (T : value) (names p : list string) (A : list value)
         (w : World host),
    dehydrate T (fun proxy => navigate host proxy names)
    = Ok (Some (Capture false p)) ->
    exists d,
      capturer false p false A = Ok d
      /\ hydrate host d T w
         = bind host (hydrate_all host T A)
                (call host (walk host T (map VStr names))) w.
Proof.
  intros host T names p A w H. apply dehydrate_navigate in H.
  apply navigate_arrives in H. destruct H as (-> & Hf & _).
  eexists. split; [reflexivity|].
  rewrite hydrate_object. cbn [field own String.eqb Ascii.eqb Bool.eqb truthy].
  rewrite (resolved_invocation host T ObjectProto _ (map VStr names) A w);
    [reflexivity | reflexivity | reflexivity | exact Hf].
Qed.

Lemma captured_call_round_trip_witness :
  dehydrate Demo.math (fun proxy => navigate Demo.host proxy ["sqrt"])
  = Ok (Some (Capture false ["sqrt"]))
  /\ exists d,
       capturer false ["sqrt"] false [VNum 9] = Ok d
       /\ hydrate Demo.host d Demo.math Demo.start
          = bind Demo.host (hydrate_all Demo.host Demo.math [VNum 9])
                 (call Demo.host (walk Demo.host Demo.math (map VStr ["sqrt"])))
                 Demo.start.
Proof.
  split; [reflexivity|].
  apply (captured_call_round_trip Demo.host). reflexivity.
Defined.

(** X4. Capture and hydration agree on constructions: if the builder reaches
    a class capturer by navigating names and calls it with [new] and [A], the
    descriptor it gets, hydrated against the same tree, hydrates [A] and
    constructs with the class of the tree at those names. *)
Theorem captured_construction_round_trip :
  forall (host : Host) (T : value) (names p : list string) (A : list value)
         (w : World host),
    dehydrate T (fun proxy => navigate host proxy names)
    = Ok (Some (Capture true p)) ->
    exists d,
      capturer true p true A = Ok d
      /\ hydrate host d T w
         = bind host (hydrate_all host T A)
                (construct host (walk host T (map VStr names))) w.
Proof.
  intros host T names p A w H. apply dehydrate_navigate in H.
  apply navigate_arrives in H. destruct H as (-> & Hf & Hc).
  eexists. split; [reflexivity|].
  rewrite hydrate_object. cbn [field own String.eqb Ascii.eqb Bool.eqb truthy].
  rewrite (resolved_invocation host T ObjectProto _ (map VStr names) A w);
    [| reflexivity | reflexivity | exact Hf].
  cbn [field own String.eqb Ascii.eqb Bool.eqb truthy]. rewrite <- Hc.
  reflexivity.
Qed.

Lemma captured_construction_round_trip_witness :
  dehydrate Demo.shapes (fun proxy => navigate Demo.host proxy ["C"; "Box"])
  = Ok (Some (Capture true ["C"; "Box"]))
  /\ exists d,
       capturer true ["C"; "Box"] true [VNum 123] = Ok d
       /\ hydrate Demo.host d Demo.shapes Demo.start
          = bind Demo.host (hydrate_all Demo.host Demo.shapes [VNum 123])
                 (construct Demo.host
                    (walk Demo.host Demo.shapes (map VStr ["C"; "Box"])))
                 Demo.start.
Proof.
  split; [reflexivity|].
  apply (captured_construction_round_trip Demo.host). reflexivity.
Defined.

(** X5. A capturer that is referenced and not called serializes, through
    [toJSON], to a record that hydrates against the same tree to the very
    function the capturer stands for, whatever its kind, and nothing is
    invoked. *)
Theorem captured_reference_round_trip :
  forall (host : Host) (T : value) (names p : list string) (class : bool)
         (w : World host),
    dehydrate T (fun proxy => navigate host proxy names)
    = Ok (Some (Capture class p)) ->
    hydrate host (toJSON p) T w = (Ok (walk host T (map VStr names)), w)
    /\ typeof_function (walk host T (map VStr names)) = true.
Proof.
  intros host T names p class w H. apply dehydrate_navigate in H.
  apply navigate_arrives in H. destruct H as (-> & Hf & _).
  split; [|exact Hf]. unfold toJSON. rewrite hydrate_object.
  cbn [field own String.eqb Ascii.eqb Bool.eqb truthy].
  apply resolved_reference; [reflexivity | reflexivity | exact Hf].
Qed.

Lemma captured_reference_round_trip_witness :
  dehydrate Demo.math (fun proxy => navigate Demo.host proxy ["sqrt"])
  = Ok (Some (Capture false ["sqrt"]))
  /\ hydrate Demo.host (toJSON ["sqrt"]) Demo.math Demo.start
     = (Ok (walk Demo.host Demo.math (map VStr ["sqrt"])), Demo.start)
  /\ typeof_function (walk Demo.host Demo.math (map VStr ["sqrt"])) = true.
Proof.
  split; [reflexivity|].
  apply (captured_reference_round_trip Demo.host Demo.math ["sqrt"] ["sqrt"]
           false).
  reflexivity.
Defined.

(** ** Hydration of arrays and objects *)

Section Composites.

Variable host : Host.
Variable T : value.

Lemma hydrate_all_app (l1 l2 : list value) w :
  hydrate_all host T (l1 ++ l2) w
  = bind host (hydrate_all host T l1) (fun r1 =>
    bind host (hydrate_all host T l2) (fun r2 =>
    ret host (r1 ++ r2))) w.
Proof.
  revert w. induction l1 as [|x l1 IH]; intros w; cbn [app hydrate_all].
  - unfold bind, ret. destruct (hydrate_all host T l2 w) as [[r|e] w'];
      reflexivity.
  - unfold bind. destruct (hydrate host x T w) as [[r|e] w1]; [|reflexivity].
    rewrite IH. unfold bind, ret.
    destruct (hydrate_all host T l1 w1) as [[r1|e] w2]; [|reflexivity].
    destruct (hydrate_all host T l2 w2) as [[r2|e] w3]; reflexivity.
Qed.

Lemma hydrate_all_positions (l : list value) :
  forall w rs w',
    hydrate_all host T l w = (Ok rs, w') ->
    Forall2 (fun x r => exists w1 w2, hydrate host x T w1 = (Ok r, w2)) l rs.
Proof.
  induction l as [|x l IH]; intros w rs w' H; cbn in H.
  - unfold ret in H. injection H as <- _. constructor.
  - unfold bind in H. destruct (hydrate host x T w) as [[r|e] w1] eqn:Ex;
      [|discriminate].
    destruct (hydrate_all host T l w1) as [[rs'|e] w2] eqn:El; [|discriminate].
    unfold ret in H. injection H as <- _. constructor; [eauto|].
    eapply IH. exact El.
Qed.

Lemma keys_set_own (l : list (string * value)) (key : string) (v : value) :
  forall k, In k (keys (set_own l key v)) <-> In k (keys l) \/ k = key.
Proof.
  induction l as [|[k' x] l IH]; intros k; cbn.
  - split; [intros [<-|[]]; now right | intros [[]| ->]; now left].
  - destruct (String.eqb_spec k' key) as [->|Hn]; cbn.
    + split; [intros H; now left | intros [H| ->]; [exact H | now left]].
    + rewrite IH. tauto.
Qed.

Lemma hydrate_keys_result (fields : list (string * value)) (rest : list string) :
  forall acc w r w',
    hydrate_keys host T fields rest acc w = (Ok r, w') ->
    exists result,
      r = VObj NullProto result
      /\ forall k, In k (keys result) <-> In k (keys acc) \/ In k rest.
Proof.
  induction rest as [|key rest IH]; intros acc w r w' H; cbn in H.
  - unfold ret in H. injection H as <- _. exists acc. split; [reflexivity|].
    intros k. cbn. tauto.
  - unfold bind in H.
    destruct (hydrate host (field fields key) T w) as [[x|e] w1];
      [|discriminate].
    apply IH in H. destruct H as [result [-> Hk]]. exists result.
    split; [reflexivity|]. intros k. rewrite Hk, keys_set_own. cbn.
    split; [intros [[H| ->]|H]; auto | intros [H|[<-|H]]; auto].
Qed.

Lemma hydrate_keys_in_order (fields : list (string * value)) :
  NoDup (keys fields) ->
  forall rest done acc w,
    fields = done ++ rest ->
    keys acc = keys done ->
    hydrate_keys host T fields (keys rest) acc w
    = bind host (hydrate_all host T (map snd rest)) (fun rs =>
      ret host (VObj NullProto (acc ++ combine (keys rest) rs))) w.
Proof.
  intros Hu rest.
  induction rest as [|[k v] rest IH]; intros done acc w E Ek.
  - cbn. unfold bind, ret. rewrite app_nil_r. reflexivity.
  - assert (Hk : ~ In k (keys done)).
    { subst fields. unfold keys in *. rewrite map_app in Hu. cbn in Hu.
      apply NoDup_remove_2 in Hu. intros H. apply Hu, in_or_app. now left. }
    assert (Ef : field fields k = v).
    { unfold field. subst fields. rewrite own_skip by exact Hk.
      cbn. rewrite String.eqb_refl. reflexivity. }
    change (keys ((k, v) :: rest)) with (k :: keys rest).
    change (map snd ((k, v) :: rest)) with (v :: map snd rest).
    cbn [hydrate_keys hydrate_all]. rewrite Ef.
    unfold bind.
    destruct (hydrate host v T w) as [[r|e] w1]; [|reflexivity].
    rewrite set_own_fresh by (rewrite Ek; exact Hk).
    rewrite (IH (done ++ [(k, v)]) (acc ++ [(k, r)]) w1).
    + unfold bind, ret.
      destruct (hydrate_all host T (map snd rest) w1) as [[rs|e] w2];
        [|reflexivity].
      cbn [combine]. rewrite <- app_assoc. reflexivity.
    + rewrite <- app_assoc. exact E.
    + unfold keys in *. rewrite !map_app, Ek. reflexivity.
Qed.

End Composites.

(** X6. Hydrating an array that succeeds yields an array of the same length
    whose element at each position is the result of hydrating the element of
    the payload at that position. *)
Theorem hydrated_array_keeps_positions :
  forall (host : Host) (T : value) (l : list value) (w w' : World host)
         (r : value),
    hydrate host (VArr l) T w = (Ok r, w') ->
    exists rs,
      r = VArr rs
      /\ List.length rs = List.length l
      /\ Forall2 (fun x y => exists w1 w2, hydrate host x T w1 = (Ok y, w2))
                 l rs.
Proof.
  intros host T l w w' r H. rewrite hydrate_arguments in H. unfold bind in H.
  destruct (hydrate_all host T l w) as [[rs|e] w1] eqn:E; [|discriminate].
  unfold ret in H. injection H as <- _. exists rs.
  pose proof (hydrate_all_positions host T l w rs w1 E) as F.
  split; [reflexivity|]. split; [|exact F].
  symmetry. eapply Forall2_length. exact F.
Qed.

Lemma hydrated_array_witness :
  let payload := VArr [call_descriptor ["sqrt"] [VNum 16]; VNum 10;
                       call_descriptor ["max"] [VNum 1; VNum 7]] in
  hydrate Demo.host payload Demo.math Demo.start
  = (Ok (VArr [VNum 4; VNum 10; VNum 7]),
     (tt, [Call Demo.sqrt [VNum 16]; Call Demo.max [VNum 1; VNum 7]]))
  /\ exists rs,
       VArr [VNum 4; VNum 10; VNum 7] = VArr rs
       /\ List.length rs
          = List.length [call_descriptor ["sqrt"] [VNum 16]; VNum 10;
                         call_descriptor ["max"] [VNum 1; VNum 7]]
       /\ Forall2 (fun x y => exists w1 w2,
                     hydrate Demo.host x Demo.math w1 = (Ok y, w2))
                  [call_descriptor ["sqrt"] [VNum 16]; VNum 10;
                   call_descriptor ["max"] [VNum 1; VNum 7]] rs.
Proof.
  cbv zeta. split; [reflexivity|].
  apply (hydrated_array_keeps_positions Demo.host Demo.math _ Demo.start
           (tt, [Call Demo.sqrt [VNum 16]; Call Demo.max [VNum 1; VNum 7]])).
  reflexivity.
Defined.

(** X7. Hydration of an array stops at the first element that throws: the
    elements before it have been hydrated, the exception is the one of that
    element, the world is the one it left, and no later element is hydrated,
    whatever it is. *)
Theorem hydrated_array_stops_at_first_throw :
  forall (host : Host) (T : value) (before after : list value) (x : value)
         (w w1 w2 : World host) (rs : list value) (e : exn),
    hydrate_all host T before w = (Ok rs, w1) ->
    hydrate host x T w1 = (Throw e, w2) ->
    hydrate host (VArr (before ++ x :: after)) T w = (Throw e, w2).
Proof.
  intros host T before after x w w1 w2 rs e Hb Hx.
  rewrite hydrate_arguments. unfold bind.
  rewrite hydrate_all_app. unfold bind. rewrite Hb.
  cbn [hydrate_all]. unfold bind. rewrite Hx. reflexivity.
Qed.

Lemma hydrated_array_stops_witness :
  hydrate_all Demo.host Demo.math [call_descriptor ["sqrt"] [VNum 16]]
    Demo.start
  = (Ok [VNum 4], (tt, [Call Demo.sqrt [VNum 16]]))
  /\ hydrate Demo.host (call_descriptor ["nope"] []) Demo.math
       (tt, [Call Demo.sqrt [VNum 16]])
     = (Throw (Error "context does not have a function at path: nope"),
        (tt, [Call Demo.sqrt [VNum 16]]))
  /\ hydrate Demo.host
       (VArr ([call_descriptor ["sqrt"] [VNum 16]]
              ++ call_descriptor ["nope"] []
              :: [call_descriptor ["max"] [VNum 1]]))
       Demo.math Demo.start
     = (Throw (Error "context does not have a function at path: nope"),
        (tt, [Call Demo.sqrt [VNum 16]])).
Proof.
  split; [reflexivity|]. split; [reflexivity|].
  apply (hydrated_array_stops_at_first_throw Demo.host Demo.math
           [call_descriptor ["sqrt"] [VNum 16]]
           [call_descriptor ["max"] [VNum 1]]
           (call_descriptor ["nope"] []) Demo.start
           (tt, [Call Demo.sqrt [VNum 16]]) (tt, [Call Demo.sqrt [VNum 16]])
           [VNum 4]);
    reflexivity.
Defined.

(** X8. An object with pairwise different keys that is no descriptor is
    hydrated value by value in key order: the result is a new object without
    prototype that has the same keys in the same order, each with the
    hydrated value, and a value that throws ends the hydration there. *)
Theorem hydrated_object_keeps_keys :
  forall (host : Host) (T : value) (p : proto) (fields : list (string * value))
         (w : World host),
    truthy (field fields "_path") = false ->
    unique (keys fields) = true ->
    hydrate host (VObj p fields) T w
    = bind host (hydrate_all host T (map snd fields)) (fun rs =>
      ret host (VObj NullProto (combine (keys fields) rs))) w.
Proof.
  intros host T p fields w Hp Hu. rewrite hydrate_object, Hp.
  apply (hydrate_keys_in_order host T fields (unique_NoDup _ Hu) fields [] []);
    reflexivity.
Qed.

Lemma hydrated_object_witness :
  let fields := [("a", call_descriptor ["sqrt"] [VNum 16]); ("b", VStr "x")] in
  truthy (field fields "_path") = false
  /\ unique (keys fields) = true
  /\ hydrate Demo.host (VObj ObjectProto fields) Demo.math Demo.start
     = (Ok (VObj NullProto [("a", VNum 4); ("b", VStr "x")]),
        (tt, [Call Demo.sqrt [VNum 16]])).
Proof.
  cbv zeta. split; [reflexivity|]. split; [reflexivity|].
  rewrite (hydrated_object_keeps_keys Demo.host Demo.math ObjectProto
             [("a", call_descriptor ["sqrt"] [VNum 16]); ("b", VStr "x")]
             Demo.start eq_refl eq_refl).
  reflexivity.
Defined.

(** X9. Whatever object that is no descriptor is hydrated, the result is an
    object without prototype with the keys of the payload and no other:
    property access on it finds its own fields only, never a property
    inherited from [Object.prototype], on any host. *)
Theorem hydrated_object_has_no_prototype :
  forall (host : Host) (T : value) (p : proto) (fields : list (string * value))
         (w w' : World host) (r : value),
    truthy (field fields "_path") = false ->
    hydrate host (VObj p fields) T w = (Ok r, w') ->
    exists result,
      r = VObj NullProto result
      /\ (forall k, In k (keys result) <-> In k (keys fields))
      /\ (forall key, member host r key = field result key).
Proof.
  intros host T p fields w w' r Hp H. rewrite hydrate_object, Hp in H.
  apply hydrate_keys_result in H. destruct H as [result [-> Hk]].
  exists result. split; [reflexivity|]. split.
  - intros k. rewrite Hk. cbn. intuition.
  - intros key. unfold field. cbn. destruct (own result key); reflexivity.
Qed.

Lemma hydrated_object_has_no_prototype_witness :
  let fields := [("f", VNum 1)] in
  truthy (field fields "_path") = false
  /\ hydrate Demo.host (VObj (ClassProto 3) fields) Demo.shapes Demo.start
     = (Ok (VObj NullProto [("f", VNum 1)]), Demo.start)
  /\ exists result,
       VObj NullProto [("f", VNum 1)] = VObj NullProto result
       /\ (forall k, In k (keys result) <-> In k (keys fields))
       /\ (forall key, member Demo.host (VObj NullProto [("f", VNum 1)]) key
                       = field result key).
Proof.
  cbv zeta. split; [reflexivity|]. split; [reflexivity|].
  apply (hydrated_object_has_no_prototype Demo.host Demo.shapes (ClassProto 3)
           [("f", VNum 1)] Demo.start Demo.start);
    reflexivity.
Defined.

(** ** Edges of the resolver *)

(** X10. [_args] is tested for truth, not for presence: with [_args] null,
    false, 0 or the empty string a descriptor is a reference and resolves to
    the callable itself, nothing being invoked; with the empty array it is an
    invocation, and the callable is called with no argument. *)
Theorem falsy_args_refer_empty_args_invoke :
  forall (host : Host) (T : value) (pr : proto)
         (fields : list (string * value)) (path_keys : list value)
         (w : World host),
    field fields "_path" = VArr path_keys ->
    typeof_function (walk host T path_keys) = true ->
    (truthy (field fields "_args") = false ->
     executeDehydrated host T (VObj pr fields) w
     = (Ok (walk host T path_keys), w))
    /\ (field fields "_args" = VArr [] ->
        truthy (field fields "_class") = false ->
        executeDehydrated host T (VObj pr fields) w
        = call host (walk host T path_keys) [] w).
Proof.
  intros host T pr fields path_keys w Hp Hf. split.
  - intros Ha. rewrite executeDehydrated_object, Hp.
    apply resolve_reference; [reflexivity | exact Hf | exact Ha].
  - intros Ha Hc.
    rewrite (resolved_invocation host T pr fields path_keys [] w Hp Ha Hf), Hc.
    reflexivity.
Qed.

Lemma falsy_args_witness :
  let reference := [("_path", VArr [VStr "max"]); ("_args", VNull)] in
  let invocation := [("_path", VArr [VStr "f"]); ("_args", VArr [])] in
  (field reference "_path" = VArr [VStr "max"]
   /\ typeof_function (walk Demo.host Demo.math [VStr "max"]) = true
   /\ truthy (field reference "_args") = false
   /\ executeDehydrated Demo.host Demo.math (VObj ObjectProto reference)
        Demo.start
      = (Ok (walk Demo.host Demo.math [VStr "max"]), Demo.start))
  /\ (field invocation "_args" = VArr []
      /\ truthy (field invocation "_class") = false
      /\ executeDehydrated Demo.host Demo.shapes (VObj ObjectProto invocation)
           Demo.start
         = call Demo.host (walk Demo.host Demo.shapes [VStr "f"]) [] Demo.start).
Proof.
  cbv zeta. split.
  - do 3 (split; [reflexivity|]).
    apply (proj1 (falsy_args_refer_empty_args_invoke Demo.host Demo.math
                    ObjectProto
                    [("_path", VArr [VStr "max"]); ("_args", VNull)]
                    [VStr "max"] Demo.start eq_refl eq_refl)).
    reflexivity.
  - do 2 (split; [reflexivity|]).
    apply (proj2 (falsy_args_refer_empty_args_invoke Demo.host Demo.shapes
                    ObjectProto
                    [("_path", VArr [VStr "f"]); ("_args", VArr [])]
                    [VStr "f"] Demo.start eq_refl eq_refl));
      reflexivity.
Defined.

(** X11. [_class] is tested for truth as well: with an argument array, any
    truthy [_class] (1, a non-empty string, an object) asks for a
    construction, checked against [isClass], and any falsy one (false, 0,
    null) for a plain call, which is made even when the target is a class. *)
Theorem class_flag_is_tested_for_truth :
  forall (host : Host) (T : value) (pr : proto)
         (fields : list (string * value)) (path_keys A : list value)
         (w : World host),
    field fields "_path" = VArr path_keys ->
    field fields "_args" = VArr A ->
    typeof_function (walk host T path_keys) = true ->
    (truthy (field fields "_class") = false ->
     executeDehydrated host T (VObj pr fields) w
     = bind host (hydrate_all host T A)
            (call host (walk host T path_keys)) w)
    /\ (truthy (field fields "_class") = true ->
        executeDehydrated host T (VObj pr fields) w
        = bind host (hydrate_all host T A) (fun args =>
            if isClass host (walk host T path_keys)
            then construct host (walk host T path_keys) args
            else throw host (NotAConstructorError path_keys host)) w).
Proof.
  intros host T pr fields path_keys A w Hp Ha Hf.
  rewrite (resolved_invocation host T pr fields path_keys A w Hp Ha Hf).
  split; intros ->; reflexivity.
Qed.

Lemma class_flag_witness :
  let fields := [("_path", VArr [VStr "C"; VStr "Box"]);
                 ("_args", VArr [VNum 5]); ("_class", VNum 1)] in
  field fields "_path" = VArr [VStr "C"; VStr "Box"]
  /\ field fields "_args" = VArr [VNum 5]
  /\ typeof_function (walk Demo.host Demo.shapes [VStr "C"; VStr "Box"]) = true
  /\ truthy (field fields "_class") = true
  /\ executeDehydrated Demo.host Demo.shapes (VObj ObjectProto fields)
       Demo.start
     = (Ok (VObj (ClassProto Demo.Box_ref) [("v", VNum 5)]),
        (tt, [Construct Demo.Box [VNum 5]])).
Proof.
  cbv zeta. do 4 (split; [reflexivity|]).
  rewrite (proj2 (class_flag_is_tested_for_truth Demo.host Demo.shapes
                    ObjectProto
                    [("_path", VArr [VStr "C"; VStr "Box"]);
                     ("_args", VArr [VNum 5]); ("_class", VNum 1)]
                    [VStr "C"; VStr "Box"] [VNum 5] Demo.start
                    eq_refl eq_refl eq_refl) eq_refl).
  reflexivity.
Defined.

(** X12. The hydrated [_args] is spread into the call, so it need not be an
    array: a non-empty string passes its characters as the arguments, while
    a non-zero number or [true], which cannot be spread, make resolution
    throw a TypeError without the callable being called. *)
Theorem arguments_are_spread :
  forall (host : Host) (T : value) (pr : proto)
         (fields : list (string * value)) (path_keys : list value)
         (w : World host),
    field fields "_path" = VArr path_keys ->
    typeof_function (walk host T path_keys) = true ->
    truthy (field fields "_class") = false ->
    (forall s, field fields "_args" = VStr s -> s <> EmptyString ->
               executeDehydrated host T (VObj pr fields) w
               = call host (walk host T path_keys) (map VStr (chars s)) w)
    /\ (forall n, field fields "_args" = VNum n -> n <> 0%Z ->
                  executeDehydrated host T (VObj pr fields) w
                  = (Throw (TypeError NotIterable), w))
    /\ (field fields "_args" = VBool true ->
        executeDehydrated host T (VObj pr fields) w
        = (Throw (TypeError NotIterable), w)).
Proof.
  intros host T pr fields path_keys w Hp Hf Hc.
  rewrite executeDehydrated_object, Hp. unfold resolve. cbn [iterate].
  rewrite Hf, Hc. split; [|split].
  - intros s -> Hs. cbn [truthy].
    destruct (String.eqb_spec s EmptyString) as [E|_]; [contradiction|].
    reflexivity.
  - intros n -> Hn. cbn [truthy].
    destruct (Z.eqb_spec n 0) as [E|_]; [contradiction|]. reflexivity.
  - intros ->. reflexivity.
Qed.

Lemma arguments_are_spread_witness :
  let fields := [("_path", VArr [VStr "max"]); ("_args", VNum 7)] in
  field fields "_path" = VArr [VStr "max"]
  /\ typeof_function (walk Demo.host Demo.math [VStr "max"]) = true
  /\ truthy (field fields "_class") = false
  /\ field fields "_args" = VNum 7
  /\ 7%Z <> 0%Z
  /\ executeDehydrated Demo.host Demo.math (VObj ObjectProto fields)
       Demo.start
     = (Throw (TypeError NotIterable), Demo.start).
Proof.
  cbv zeta. do 4 (split; [reflexivity|]). split; [discriminate|].
  apply (proj1 (proj2 (arguments_are_spread Demo.host Demo.math ObjectProto
                         [("_path", VArr [VStr "max"]); ("_args", VNum 7)]
                         [VStr "max"] Demo.start eq_refl eq_refl eq_refl))
           7%Z eq_refl).
  discriminate.
Defined.

(** X13. A payload object whose [_path] is truthy is resolved whatever
    [_path] is. If it cannot be iterated (a number, [true], an object)
    hydration throws a TypeError. If it is a string, its characters are
    walked as the names of the path: a function found there is returned or
    invoked as usual, and when none is found what is thrown is the TypeError
    of the missing [join], not the error that names the path. *)
Theorem malformed_path_is_resolved :
  forall (host : Host) (T : value) (p : proto) (fields : list (string * value))
         (w : World host),
    truthy (field fields "_path") = true ->
    (iterate (field fields "_path") = None ->
     hydrate host (VObj p fields) T w = (Throw (TypeError NotIterable), w))
    /\ (forall s, field fields "_path" = VStr s ->
          (typeof_function (walk host T (map VStr (chars s))) = false ->
           hydrate host (VObj p fields) T w
           = (Throw (TypeError NotAFunction), w))
          /\ (typeof_function (walk host T (map VStr (chars s))) = true ->
              truthy (field fields "_args") = false ->
              hydrate host (VObj p fields) T w
              = (Ok (walk host T (map VStr (chars s))), w))).
Proof.
  intros host T p fields w Ht. rewrite hydrate_object, Ht.
  rewrite executeDehydrated_object. unfold resolve. split.
  - intros ->. reflexivity.
  - intros s ->. cbn [iterate]. split.
    + intros ->. reflexivity.
    + intros -> ->. reflexivity.
Qed.

Lemma malformed_path_witness :
  let number_path := [("_path", VNum 5)] in
  let string_path := [("_path", VStr "ab")] in
  let tree := VObj ObjectProto [("a", VObj ObjectProto [("b", Demo.sqrt)])] in
  (truthy (field number_path "_path") = true
   /\ iterate (field number_path "_path") = None
   /\ hydrate Demo.host (VObj ObjectProto number_path) tree Demo.start
      = (Throw (TypeError NotIterable), Demo.start))
  /\ (truthy (field string_path "_path") = true
      /\ typeof_function (walk Demo.host tree (map VStr (chars "ab"))) = true
      /\ truthy (field string_path "_args") = false
      /\ hydrate Demo.host (VObj ObjectProto string_path) tree Demo.start
         = (Ok (walk Demo.host tree (map VStr (chars "ab"))), Demo.start)).
Proof.
  cbv zeta. split.
  - do 2 (split; [reflexivity|]).
    apply (proj1 (malformed_path_is_resolved Demo.host _ ObjectProto
                    [("_path", VNum 5)] Demo.start eq_refl)).
    reflexivity.
  - do 3 (split; [reflexivity|]).
    apply (proj2 (proj2 (malformed_path_is_resolved Demo.host _ ObjectProto
                           [("_path", VStr "ab")] Demo.start eq_refl)
                    "ab" eq_refl));
      reflexivity.
Defined.

(** ** Literal arguments and repeated hydration *)

Section Literals.

Variable host : Host.

Lemma hydrate_copies_any (T v : value) :
  well_keyed v = true -> descriptor_free v = true -> copied host T v.
Proof.
  induction v as [| |b|n|s|l IH|p fields IH|r fields IH] using value_ind;
    intros Hk Hd w; try reflexivity.
  - rewrite hydrate_array. apply (copy_elements host T l []).
    cbn in Hk, Hd. rewrite forallb_forall in Hk, Hd.
    rewrite Forall_forall in *. intros x Hx. apply IH; auto.
  - cbn in Hk, Hd.
    apply andb_true_iff in Hk. destruct Hk as [Hu Hk].
    apply andb_true_iff in Hd. destruct Hd as [Hp Hd].
    apply negb_true_iff in Hp.
    rewrite hydrate_object, Hp.
    apply (copy_keys host T fields (unique_NoDup _ Hu)) with (done := []);
      [|reflexivity].
    rewrite forallb_forall in Hk, Hd. rewrite Forall_forall in *.
    intros kv Hkv. apply IH; auto.
Qed.

Lemma json_shaped_well_keyed (v : value) :
  json_shaped v = true -> well_keyed v = true.
Proof.
  induction v as [| |b|n|s|l IH|p fields IH|r fields IH] using value_ind;
    intros H; try reflexivity.
  - cbn in *. rewrite forallb_forall in *. rewrite Forall_forall in IH. auto.
  - destruct p; try discriminate. cbn in *.
    apply andb_true_iff in H. destruct H as [Hu H]. rewrite Hu. cbn.
    rewrite forallb_forall in *. rewrite Forall_forall in IH. auto.
Qed.

Lemma hydrate_all_literals (T : value) (A : list value) w :
  forallb json_shaped A = true ->
  forallb descriptor_free A = true ->
  hydrate_all host T A w = (Ok (map copy A), w).
Proof.
  revert w. induction A as [|x A IH]; intros w Hj Hd; [reflexivity|].
  cbn in Hj, Hd. apply andb_true_iff in Hj. destruct Hj as [Hx Hj].
  apply andb_true_iff in Hd. destruct Hd as [Hx' Hd].
  cbn [hydrate_all map].
  erewrite bind_ok
    by (apply hydrate_copies_any; [now apply json_shaped_well_keyed | exact Hx']).
  erewrite bind_ok by (apply IH; assumption). reflexivity.
Qed.

End Literals.

Lemma own_copy_fields (fields : list (string * value)) (key : string) :
  own (copy_fields fields) key = option_map copy (own fields key).
Proof.
  induction fields as [|[k v] rest IH]; [reflexivity|].
  cbn. destruct (k =? key)%string; [reflexivity | exact IH].
Qed.

Lemma truthy_copy (v : value) : truthy (copy v) = truthy v.
Proof. destruct v; reflexivity. Qed.

Lemma copy_copy (v : value) : copy (copy v) = copy v.
Proof.
  induction v as [| |b|n|s|l IH|p fields IH|r fields IH] using value_ind;
    try reflexivity; cbn; f_equal.
  - induction IH as [|x rest Hx _ IHr]; cbn; [reflexivity|].
    rewrite Hx, IHr. reflexivity.
  - induction IH as [|kv rest Hkv _ IHr]; cbn; [reflexivity|].
    rewrite Hkv, IHr. reflexivity.
Qed.

Lemma well_keyed_copy (v : value) : well_keyed (copy v) = well_keyed v.
Proof.
  induction v as [| |b|n|s|l IH|p fields IH|r fields IH] using value_ind;
    try reflexivity; cbn.
  - induction IH as [|x rest Hx _ IHr]; cbn; [reflexivity|].
    rewrite Hx, IHr. reflexivity.
  - fold (copy_fields fields). rewrite keys_copy_fields. f_equal.
    unfold copy_fields.
    induction IH as [|kv rest Hkv _ IHr]; cbn; [reflexivity|].
    rewrite Hkv, IHr. reflexivity.
Qed.

Lemma descriptor_free_copy (v : value) :
  descriptor_free (copy v) = descriptor_free v.
Proof.
  induction v as [| |b|n|s|l IH|p fields IH|r fields IH] using value_ind;
    try reflexivity; cbn.
  - induction IH as [|x rest Hx _ IHr]; cbn; [reflexivity|].
    rewrite Hx, IHr. reflexivity.
  - fold (copy_fields fields). f_equal.
    + f_equal. unfold field. rewrite own_copy_fields.
      destruct (own fields "_path"); [apply truthy_copy | reflexivity].
    + unfold copy_fields.
      induction IH as [|kv rest Hkv _ IHr]; cbn; [reflexivity|].
      rewrite Hkv, IHr. reflexivity.
Qed.

(** X14. Literal arguments reach the call as they are: when the arguments of
    a descriptor are JSON-shaped and contain no descriptor, resolving it
    calls the function at its path with copies of the arguments, each
    structurally equal to the argument, and hydrating them invokes nothing. *)
Theorem literal_arguments_are_passed :
  forall (host : Host) (T : value) (p : list string) (A : list value)
         (w : World host),
    forallb json_shaped A = true ->
    forallb descriptor_free A = true ->
    typeof_function (walk host T (map VStr p)) = true ->
    executeDehydrated host T (call_descriptor p A) w
    = call host (walk host T (map VStr p)) (map copy A) w
    /\ Forall2 structurally_equal (map copy A) A.
Proof.
  intros host T p A w Hj Hd Hf. split.
  - unfold call_descriptor.
    rewrite (resolved_invocation host T ObjectProto _ (map VStr p) A w);
      [| reflexivity | reflexivity | exact Hf].
    erewrite bind_ok by (apply hydrate_all_literals; assumption).
    reflexivity.
  - clear. induction A as [|x A IH]; cbn; constructor;
      [apply copy_structurally_equal | exact IH].
Qed.

Lemma literal_arguments_witness :
  let A := [VNum 16; VObj ObjectProto [("k", VStr "v")]] in
  forallb json_shaped A = true
  /\ forallb descriptor_free A = true
  /\ typeof_function (walk Demo.host Demo.math (map VStr ["sqrt"])) = true
  /\ executeDehydrated Demo.host Demo.math (call_descriptor ["sqrt"] A)
       Demo.start
     = call Demo.host (walk Demo.host Demo.math (map VStr ["sqrt"]))
            (map copy A) Demo.start.
Proof.
  cbv zeta. do 3 (split; [reflexivity|]).
  apply (proj1 (literal_arguments_are_passed Demo.host Demo.math ["sqrt"]
                  [VNum 16; VObj ObjectProto [("k", VStr "v")]] Demo.start
                  eq_refl eq_refl eq_refl)).
Defined.



(** X16. Hydration is idempotent where there is nothing to resolve: a value
    whose objects have pairwise different keys and in which no object is
    taken for a descriptor hydrates, against any tree, to a value that
    hydrates to itself against any tree, and neither run touches the world. *)
Theorem hydrate_twice_is_hydrate_once :
  forall (host : Host) (payload T T' : value) (w w' : World host),
    well_keyed payload = true ->
    descriptor_free payload = true ->
    exists r,
      hydrate host payload T w = (Ok r, w)
      /\ hydrate host r T' w' = (Ok r, w').
Proof.
  intros host payload T T' w w' Hk Hd. exists (copy payload). split.
  - now apply hydrate_copies_any.
  - rewrite <- (copy_copy payload) at 2. apply hydrate_copies_any.
    + rewrite well_keyed_copy. exact Hk.
    + rewrite descriptor_free_copy. exact Hd.
Qed.

Lemma hydrate_twice_witness :
  let payload := VArr [VObj ObjectProto [("a", VUndefined); ("f", Demo.sqrt)];
                       VNull] in
  well_keyed payload = true
  /\ descriptor_free payload = true
  /\ exists r,
       hydrate Demo.host payload Demo.math Demo.start = (Ok r, Demo.start)
       /\ hydrate Demo.host r Demo.shapes Demo.start = (Ok r, Demo.start).
Proof.
  cbv zeta. do 2 (split; [reflexivity|]).
  apply (hydrate_twice_is_hydrate_once Demo.host); reflexivity.
Defined.
